(** * Portfolio tracker: allocation comparison and purchase suggestion

    A shallow embedding of the computational part of [Untitled-1.py]
    (lines 43-49, 62-69 and 106-122): the construction of the [portfolio]
    dictionary from the sidebar sliders, the data frame [df] with its
    [Value] and [Weight (%)] columns, the outer merge with the index
    weights, and the choice of the stock to buy with the fixed purchase
    amount.

    Numbers.  The script computes with IEEE doubles.  Here a double is
    an exact rational or one of the three special values; finite
    arithmetic is exact (no rounding, no overflow, no signed zero),
    the special values follow IEEE 754 as numpy applies it (division
    by zero yields an infinity or NaN and raises nothing).  Where the
    choice of the script depends on the last bit of a double, the
    comparison of two gaps, the same lines are also given with every
    operation rounded ([new_diff_rnd], [round_b64]).

    Order of rows.  Frames are kept as lists of rows.  The one place
    where the script orders rows is line 69, a sort on the target weight
    alone; the statements about the comparison are made for every order
    of the rows that this sort allows ([is_comparison]), and
    [computeComparison] computes one of them.

    Errors.  The script defines no exception of its own.  The failures
    of the modelled lines are Python's: [IndexError] for position 0 of
    an empty list or series, [KeyError] for a missing
    ['regularMarketPrice'] entry, and [TypeError] and
    [ZeroDivisionError] for the division of line 122 by a quote of the
    market data service that is [None] or zero. *)

From Stdlib Require Import List String Ascii ZArith QArith Qabs Bool.
From Stdlib Require Import Lia Lqa Permutation Sorted Orders Mergesort.
Import ListNotations.

Local Open Scope string_scope.
Local Open Scope Q_scope.

(** ** Doubles *)

Inductive float : Type :=
| Fin (q : Q)
| PInf
| NInf
| NaN.

Definition of_int (z : Z) : float := Fin (inject_Z z).

Definition isnan (x : float) : bool :=
  match x with NaN => true | _ => false end.

Definition notnan (x : float) : bool := negb (isnan x).

Definition fneg (x : float) : float :=
  match x with
  | Fin q => Fin (- q)
  | PInf => NInf
  | NInf => PInf
  | NaN => NaN
  end.

Definition fadd (x y : float) : float :=
  match x, y with
  | NaN, _ | _, NaN => NaN
  | Fin a, Fin b => Fin (a + b)
  | PInf, NInf | NInf, PInf => NaN
  | PInf, _ | _, PInf => PInf
  | NInf, _ | _, NInf => NInf
  end.

Definition fsub (x y : float) : float := fadd x (fneg y).

(** The infinity with the sign of [q] times the sign [pos]; NaN for 0. *)
Definition signed_inf (q : Q) (pos : bool) : float :=
  match q ?= 0 with
  | Eq => NaN
  | Gt => if pos then PInf else NInf
  | Lt => if pos then NInf else PInf
  end.

Definition fmul (x y : float) : float :=
  match x, y with
  | NaN, _ | _, NaN => NaN
  | Fin a, Fin b => Fin (a * b)
  | Fin a, PInf | PInf, Fin a => signed_inf a true
  | Fin a, NInf | NInf, Fin a => signed_inf a false
  | PInf, PInf | NInf, NInf => PInf
  | PInf, NInf | NInf, PInf => NInf
  end.

Definition fdiv (x y : float) : float :=
  match x, y with
  | NaN, _ | _, NaN => NaN
  | Fin a, Fin b =>
      match b ?= 0 with
      | Eq => signed_inf a true
      | _ => Fin (a / b)
      end
  | Fin _, PInf | Fin _, NInf => Fin 0
  | PInf, Fin b => match b ?= 0 with Lt => NInf | _ => PInf end
  | NInf, Fin b => match b ?= 0 with Lt => PInf | _ => NInf end
  | _, _ => NaN
  end.

Definition fabs (x : float) : float :=
  match x with
  | Fin q => Fin (Qabs q)
  | PInf | NInf => PInf
  | NaN => NaN
  end.

(** Python's [<] and [<=] on doubles: false as soon as a NaN is involved. *)
Definition flt (x y : float) : bool :=
  match x, y with
  | NaN, _ | _, NaN => false
  | Fin a, Fin b => match a ?= b with Lt => true | _ => false end
  | NInf, NInf => false
  | NInf, _ => true
  | Fin _, PInf => true
  | _, _ => false
  end.

Definition fle (x y : float) : bool :=
  match x, y with
  | NaN, _ | _, NaN => false
  | Fin a, Fin b => match a ?= b with Gt => false | _ => true end
  | NInf, _ => true
  | _, PInf => true
  | _, _ => false
  end.

(** Numerical equality of two doubles ([Qeq] on the finite ones). *)
Definition feq (x y : float) : Prop :=
  match x, y with
  | Fin a, Fin b => a == b
  | PInf, PInf | NInf, NInf | NaN, NaN => True
  | _, _ => False
  end.

(** The same double with its fraction reduced; used to display results. *)
Definition fred (x : float) : float :=
  match x with Fin q => Fin (Qred q) | _ => x end.

(** [Series.fillna(0)] on one cell. *)
Definition fillna0 (x : float) : float :=
  match x with NaN => Fin 0 | _ => x end.

(** [Series.sum()]: pandas skips NaN ([skipna=True]); the sum of no
    value is 0. *)
Definition sum_skipna (l : list float) : float :=
  fold_right fadd (Fin 0) (filter notnan l).

(** The plain sum, NaN propagating. *)
Definition fsum (l : list float) : float := fold_right fadd (Fin 0) l.

(** ** Series and index labels *)

(** A [pd.Series] (or a [dict]) with ticker labels: the labelled values in
    order.  A lookup takes the first entry with the label. *)
Definition Series (A : Type) : Type := list (string * A).

Definition index {A : Type} (s : Series A) : list string := map fst s.

Fixpoint get {A : Type} (s : Series A) (k : string) : option A :=
  match s with
  | [] => None
  | (k', v) :: s' => if (k' =? k)%string then Some v else get s' k
  end.

Definition cell (o : option float) : float :=
  match o with Some x => x | None => NaN end.

Module TickerOrder <: TotalLeBool.
Definition t := string.
Definition leb := String.leb.
Lemma leb_total : forall x y, is_true (leb x y) \/ is_true (leb y x).
Proof. intros x y. apply String.leb_total. Qed.
End TickerOrder.

Module TickerSort := Sort TickerOrder.

(** The index of an aligned frame or of an outer join: the union of the
    labels, each once, in lexicographic order. *)
Definition index_union (a b : list string) : list string :=
  TickerSort.sort (nodup string_dec (a ++ b)).

(** ** The portfolio dictionary (lines 43-49) *)

(** [d[k] = v] on a Python dictionary: the value is replaced in place when
    the key exists, the entry is appended otherwise. *)
Fixpoint dict_set {A : Type} (d : Series A) (k : string) (v : A) : Series A :=
  match d with
  | [] => [(k, v)]
  | (k', v') :: d' =>
      if (k' =? k)%string then (k', v) :: d' else (k', v') :: dict_set d' k v
  end.

(** The loop over [top20.index]: [slider ticker] is the share count the
    slider of [ticker] returns (an integer of 0..50, its default when the
    user leaves it alone). *)
Definition build_portfolio (top20_index : list string) (slider : string -> Z)
  : Series Z :=
  fold_left
    (fun portfolio ticker =>
       let shares := slider ticker in
       if (0 <? shares)%Z then dict_set portfolio ticker shares else portfolio)
    top20_index [].

(** The defaults of the sliders (line 33). *)
Definition default_portfolio : Series Z :=
  [("AAPL", 11); ("MSFT", 5); ("NVDA", 17); ("CSCO", 23);
   ("AMZN", 7); ("GOOGL", 8); ("TMUS", 5); ("AVGO", 6);
   ("META", 2); ("NFLX", 1); ("BRK-B", 2); ("COST", 1)]%Z.

(** Lines 46-47: [st.slider(label, 0, 50, default)] with
    [default = default_portfolio.get(ticker, 0)]; [choice ticker] is the
    position the user gave the slider, if any. *)
Definition st_slider (choice : string -> option Z) (ticker : string) : Z :=
  let default :=
    match get default_portfolio ticker with Some v => v | None => 0%Z end in
  match choice ticker with Some shares => shares | None => default end.

(** ** The frame [df] (lines 62-64) *)

Record DfRow : Type := {
  df_Ticker : string;
  df_Shares : float;
  df_Price : float;
  df_Value : float;
  df_Weight : float
}.

(** Line 62: the two series aligned on the union of their labels, NaN where
    a series has no entry.  Line 63: [Value = Shares * Price]. *)
Definition df_values (portfolio : Series Z) (prices : Series float)
  : list (string * float * float * float) :=
  map (fun t =>
         let shares := cell (option_map of_int (get portfolio t)) in
         let price := cell (get prices t) in
         (t, shares, price, fmul shares price))
      (index_union (index portfolio) (index prices)).

(** [df['Value'].sum()]. *)
Definition total_usd (portfolio : Series Z) (prices : Series float) : float :=
  sum_skipna (map snd (df_values portfolio prices)).

(** Line 64: [Weight (%) = 100 * Value / Value.sum()]. *)
Definition make_df (portfolio : Series Z) (prices : Series float) : list DfRow :=
  let total := total_usd portfolio prices in
  map (fun '(t, shares, price, value) =>
         {| df_Ticker := t; df_Shares := shares; df_Price := price;
            df_Value := value;
            df_Weight := fdiv (fmul (of_int 100) value) total |})
      (df_values portfolio prices).

(** ** The index weights and the comparison (lines 67-69) *)

(** A row of [nasdaq_df]. *)
Record TargetWeight : Type := {
  tw_Ticker : string;
  tw_Company : string;
  tw_Weight : float
}.

Record Row : Type := {
  Ticker : string;
  Shares : float;
  Price : float;
  Value : float;
  Weight : float;
  Nasdaq100_Weight : float;
  Difference : float
}.

(** Lines 67-68 for one joined row: the cells of the left row (NaN when the
    ticker is not in [df]) and the index weight (NaN when the ticker is not
    in [nasdaq_df]) go through [fillna(0)]; the difference is taken on the
    filled columns. *)
Definition joined_row (t : string) (left : option DfRow) (right : float) : Row :=
  let shares := fillna0 (cell (option_map df_Shares left)) in
  let price := fillna0 (cell (option_map df_Price left)) in
  let value := fillna0 (cell (option_map df_Value left)) in
  let weight := fillna0 (cell (option_map df_Weight left)) in
  let nasdaq := fillna0 right in
  {| Ticker := t; Shares := shares; Price := price; Value := value;
     Weight := weight; Nasdaq100_Weight := nasdaq;
     Difference := fsub weight nasdaq |}.

(** The outer join on the index: one row per pair of matching rows, one row
    with the missing side empty for a label of one side only. *)
Definition merge_outer (df : list DfRow) (nasdaq_df : list TargetWeight)
  : list Row :=
  flat_map
    (fun t =>
       let left := find (fun r => (df_Ticker r =? t)%string) df in
       match filter (fun n => (tw_Ticker n =? t)%string) nasdaq_df with
       | [] => [joined_row t left NaN]
       | matches => map (fun n => joined_row t left (tw_Weight n)) matches
       end)
    (index_union (map df_Ticker df) (map tw_Ticker nasdaq_df)).

Definition comparison_rows (nasdaq_df : list TargetWeight)
  (portfolio : Series Z) (prices : Series float) : list Row :=
  merge_outer (make_df portfolio prices) nasdaq_df.

(** Line 69: [sort_values('Nasdaq100 Weight (%)', ascending=False)].  The
    call names one key and leaves [kind] at its default, quicksort; the
    pandas documentation of [kind] reads: mergesort and stable are the
    only stable algorithms.  What the line fixes is that the result holds
    the same rows, in descending order of the key. *)
Definition descending (a b : Row) : Prop :=
  fle (Nasdaq100_Weight b) (Nasdaq100_Weight a) = true.

Definition sort_values_spec (rows out : list Row) : Prop :=
  Permutation rows out /\ StronglySorted descending out.

(** One such ordering, which can be run: rows with equal keys keep their
    relative order. *)
Fixpoint insert_desc (r : Row) (l : list Row) : list Row :=
  match l with
  | [] => [r]
  | r' :: l' =>
      if flt (Nasdaq100_Weight r') (Nasdaq100_Weight r)
      then r :: r' :: l'
      else r' :: insert_desc r l'
  end.

Definition sort_values (rows : list Row) : list Row :=
  fold_left (fun acc r => insert_desc r acc) rows [].

(** The comparison tables the script can hold after line 69. *)
Definition is_comparison (nasdaq_df : list TargetWeight)
  (portfolio : Series Z) (prices : Series float) (out : list Row) : Prop :=
  sort_values_spec (comparison_rows nasdaq_df portfolio prices) out.

Definition computeComparison (nasdaq_df : list TargetWeight)
  (portfolio : Series Z) (prices : Series float) : list Row :=
  sort_values (comparison_rows nasdaq_df portfolio prices).

(** ** The suggestion (lines 106-122) *)

Inductive exn : Type :=
| IndexError
| KeyError
| ZeroDivisionError
| TypeError.

Inductive outcome (A : Type) : Type :=
| Returns (a : A)
| Raises (e : exn).
Arguments Returns {A} a.
Arguments Raises {A} e.

Definition purchase_amount : float := of_int 1250.

(** Lines 111-116, the body of the loop for one row. *)
Definition new_diff (total purchase : float) (row : Row) : float :=
  let current_value := Value row in
  let target_weight := Nasdaq100_Weight row in
  let new_value := fadd current_value purchase in
  let new_total := fadd total purchase in
  let new_weight := fdiv (fmul (of_int 100) new_value) new_total in
  fabs (fsub new_weight target_weight).

Definition suggestion : Type := (string * float * float)%type.

Definition gap_of (s : suggestion) : float := snd (fst s).

Definition suggestions (total purchase : float) (rows : list Row)
  : list suggestion :=
  map (fun row => (Ticker row, new_diff total purchase row,
                   Nasdaq100_Weight row)) rows.

(** [list.sort(key=lambda x: x[1])]: Python's sort is stable and compares
    keys with [<] only. *)
Fixpoint insert_by_gap (s : suggestion) (l : list suggestion) : list suggestion :=
  match l with
  | [] => [s]
  | s' :: l' =>
      if flt (gap_of s') (gap_of s) then s' :: insert_by_gap s l' else s :: l
  end.

Definition sort_by_gap (l : list suggestion) : list suggestion :=
  fold_right insert_by_gap [] l.

(** Lines 108-120: [suggestions[0]] of the sorted list; indexing the empty
    list raises [IndexError]. *)
Definition select_best (total purchase : float) (rows : list Row)
  : outcome suggestion :=
  match sort_by_gap (suggestions total purchase rows) with
  | [] => Raises IndexError
  | s :: _ => Returns s
  end.

(** The ['regularMarketPrice'] entry of [yf.Ticker(t).info], when there is
    one: a JSON null, which Python holds as [None], or a number. *)
Inductive quote : Type :=
| Null
| Number (x : float).

(** The object that line 121 binds to [price]: a [numpy.float64] read in
    [df], or what the market data service gave, a Python number or
    [None]. *)
Inductive price_obj : Type :=
| Float64 (x : float)
| PyNumber (x : float)
| PyNone.

(** The number held by a price, if it is one. *)
Definition price_number (price : price_obj) : option float :=
  match price with
  | Float64 x | PyNumber x => Some x
  | PyNone => None
  end.

(** Line 121: the price of the chosen ticker is read in [df] when the
    ticker is a label of [df]; otherwise it is asked from the market data
    service, [info t] being the ['regularMarketPrice'] entry of
    [yf.Ticker(t).info] ([None]: no such entry, a [KeyError]). *)
Definition price_of (df : list DfRow) (info : string -> option quote)
  (t : string) : outcome price_obj :=
  match find (fun r => (df_Ticker r =? t)%string) df with
  | Some r => Returns (Float64 (df_Price r))
  | None =>
      match info t with
      | Some (Number p) => Returns (PyNumber p)
      | Some Null => Returns PyNone
      | None => Raises KeyError
      end
  end.

Definition is_zero (x : float) : bool :=
  match x with
  | Fin q => match q ?= 0 with Eq => true | _ => false end
  | _ => false
  end.

(** Line 122, [purchase_amount / price], the amount being a Python
    integer.  By a [numpy.float64] the division is numpy's and raises
    nothing; by a Python number it is Python's, which raises
    [ZeroDivisionError] for a zero divisor; by [None] it is a
    [TypeError]. *)
Definition truediv (purchase : float) (price : price_obj) : outcome float :=
  match price with
  | Float64 x => Returns (fdiv purchase x)
  | PyNumber x =>
      if is_zero x then Raises ZeroDivisionError
      else Returns (fdiv purchase x)
  | PyNone => Raises TypeError
  end.

Record Recommendation : Type := {
  best_ticker : string;
  shares_to_buy : float;
  projected_gap : float;
  target_weight : float
}.

Definition recommendPurchase (rows : list Row) (total : float)
  (df : list DfRow) (info : string -> option quote) (purchase : float)
  : outcome Recommendation :=
  match select_best total purchase rows with
  | Raises e => Raises e
  | Returns (ticker, gap, target) =>
      match price_of df info ticker with
      | Raises e => Raises e
      | Returns price =>
          match truediv purchase price with
          | Raises e => Raises e
          | Returns shares =>
              Returns {| best_ticker := ticker;
                         shares_to_buy := shares;
                         projected_gap := gap;
                         target_weight := target |}
          end
      end
  end.

(** ** The suggestion in double precision *)

(** Every arithmetic operation of lines 113-116 and 122 yields the double
    nearest to its real result.  [rnd] is that rounding on the finite
    results; with [rnd] the identity these are the definitions above, with
    [round_b64] below they are the doubles of the script (overflow apart,
    as everywhere here, and without signed zero). *)
Section Rounded.

Variable rnd : Q -> Q.

Definition fround (x : float) : float :=
  match x with Fin q => Fin (rnd q) | _ => x end.

Definition radd (x y : float) : float := fround (fadd x y).
Definition rsub (x y : float) : float := fround (fsub x y).
Definition rmul (x y : float) : float := fround (fmul x y).
Definition rdiv (x y : float) : float := fround (fdiv x y).

(** Lines 111-116. *)
Definition new_diff_rnd (total purchase : float) (row : Row) : float :=
  let current_value := Value row in
  let target_weight := Nasdaq100_Weight row in
  let new_value := radd current_value purchase in
  let new_total := radd total purchase in
  let new_weight := rdiv (rmul (of_int 100) new_value) new_total in
  fabs (rsub new_weight target_weight).

Definition suggestions_rnd (total purchase : float) (rows : list Row)
  : list suggestion :=
  map (fun row => (Ticker row, new_diff_rnd total purchase row,
                   Nasdaq100_Weight row)) rows.

(** Lines 119-120. *)
Definition select_best_rnd (total purchase : float) (rows : list Row)
  : outcome suggestion :=
  match sort_by_gap (suggestions_rnd total purchase rows) with
  | [] => Raises IndexError
  | s :: _ => Returns s
  end.

(** Line 122. *)
Definition truediv_rnd (purchase : float) (price : price_obj)
  : outcome float :=
  match price with
  | Float64 x => Returns (rdiv purchase x)
  | PyNumber x =>
      if is_zero x then Raises ZeroDivisionError
      else Returns (rdiv purchase x)
  | PyNone => Raises TypeError
  end.

Definition recommendPurchase_rnd (rows : list Row) (total : float)
  (df : list DfRow) (info : string -> option quote) (purchase : float)
  : outcome Recommendation :=
  match select_best_rnd total purchase rows with
  | Raises e => Raises e
  | Returns (ticker, gap, target) =>
      match price_of df info ticker with
      | Raises e => Raises e
      | Returns price =>
          match truediv_rnd purchase price with
          | Raises e => Raises e
          | Returns shares =>
              Returns {| best_ticker := ticker;
                         shares_to_buy := shares;
                         projected_gap := gap;
                         target_weight := target |}
          end
      end
  end.

End Rounded.

(** No rounding: exact arithmetic. *)
Definition no_rounding (q : Q) : Q := q.

(** Rounding of a rational to the nearest double (binary64: 53 bits,
    ties to even, subnormals below 2^-1022). *)
Definition round_half_even (n d : Z) : Z :=
  let q := (n / d)%Z in
  let r := (n mod d)%Z in
  match (2 * r ?= d)%Z with
  | Lt => q
  | Gt => (q + 1)%Z
  | Eq => if Z.even q then q else (q + 1)%Z
  end.

(** The integer part of the binary logarithm of [n / d]. *)
Definition binade (n d : Z) : Z :=
  let e := (Z.log2 n - Z.log2 d)%Z in
  if (if (0 <=? e)%Z then (d * 2 ^ e <=? n)%Z else (d <=? n * 2 ^ (- e))%Z)
  then e else (e - 1)%Z.

Definition round_b64 (q : Q) : Q :=
  let n := Z.abs (Qnum q) in
  let d := Zpos (Qden q) in
  if (n =? 0)%Z then 0 else
  let e := Z.max (binade n d) (-1022) in
  let s := (52 - e)%Z in
  let m := if (0 <=? s)%Z then round_half_even (n * 2 ^ s) d
           else round_half_even n (d * 2 ^ (- s)) in
  let m := (Z.sgn (Qnum q) * m)%Z in
  if (0 <=? s)%Z then Qred (m # Z.to_pos (2 ^ s))
  else inject_Z (m * 2 ^ (- s)).

(** Results with reduced fractions. *)
Definition row_red (r : Row) : Row :=
  {| Ticker := Ticker r; Shares := fred (Shares r); Price := fred (Price r);
     Value := fred (Value r); Weight := fred (Weight r);
     Nasdaq100_Weight := fred (Nasdaq100_Weight r);
     Difference := fred (Difference r) |}.

Definition rec_red (r : Recommendation) : Recommendation :=
  {| best_ticker := best_ticker r; shares_to_buy := fred (shares_to_buy r);
     projected_gap := fred (projected_gap r);
     target_weight := fred (target_weight r) |}.

(** ** The scenario of the specification *)

Definition tw (t : string) (w : Z) : TargetWeight :=
  {| tw_Ticker := t; tw_Company := ""; tw_Weight := of_int w |}.

Definition ex_targets : list TargetWeight := [tw "AAPL" 40; tw "MSFT" 60].
Definition ex_holdings : Series Z := [("AAPL", 10%Z); ("MSFT", 5%Z)].
Definition ex_prices : Series float :=
  [("AAPL", of_int 100); ("MSFT", of_int 200)].

Definition no_info : string -> option quote := fun _ => None.

(** ** Notions used in the statements *)

(** The row of [df] with label [t]. *)
Definition df_row_of (portfolio : Series Z) (prices : Series float)
  (t : string) : DfRow :=
  let shares := cell (option_map of_int (get portfolio t)) in
  let price := cell (get prices t) in
  let value := fmul shares price in
  {| df_Ticker := t; df_Shares := shares; df_Price := price;
     df_Value := value;
     df_Weight := fdiv (fmul (of_int 100) value) (total_usd portfolio prices) |}.

(** A ticker is held when the portfolio has an entry for it. *)
Definition held_label (portfolio : Series Z) (t : string) : bool :=
  match get portfolio t with Some _ => true | None => false end.

(** The value of a held and priced ticker, as a rational. *)
Definition held_value (portfolio : Series Z) (prices : Series float)
  (t : string) : Q :=
  match get portfolio t, get prices t with
  | Some s, Some (Fin p) => inject_Z s * p
  | _, _ => 0
  end.

Definition qsum (l : list Q) : Q := fold_right Qplus 0 l.

Definition held_total (portfolio : Series Z) (prices : Series float) : Q :=
  qsum (map (held_value portfolio prices)
            (filter (held_label portfolio)
                    (index_union (index portfolio) (index prices)))).

(** The first entry of smallest gap, read off the way the insertion sort
    builds its head. *)
Fixpoint first_min (l : list suggestion) : option suggestion :=
  match l with
  | [] => None
  | s :: l' =>
      match first_min l' with
      | None => Some s
      | Some h => if flt (gap_of h) (gap_of s) then Some h else Some s
      end
  end.

(** The rows of the scenario, and a market data service quoting 125. *)
Definition ex_row_MSFT : Row :=
  {| Ticker := "MSFT"; Shares := Fin 5; Price := Fin 200; Value := Fin 1000;
     Weight := Fin 50; Nasdaq100_Weight := Fin 60; Difference := Fin (-10) |}.

Definition ex_row_AAPL : Row :=
  {| Ticker := "AAPL"; Shares := Fin 10; Price := Fin 100; Value := Fin 1000;
     Weight := Fin 50; Nasdaq100_Weight := Fin 40; Difference := Fin 10 |}.

Definition quote_125 : string -> option quote :=
  fun _ => Some (Number (of_int 125)).

(** A scenario with two gaps that are equal as real numbers. *)
Definition tie_targets : list TargetWeight := [tw "AAPL" 61; tw "MSFT" 59].
Definition tie_holdings : Series Z := [("AAPL", 4%Z); ("MSFT", 23%Z)].
Definition tie_rows : list Row :=
  computeComparison tie_targets tie_holdings ex_prices.
Definition tie_total : float := total_usd tie_holdings ex_prices.

(** ** The rest of the script *)

(** Lines 24-28: [.str.replace(c, '', regex=False)] for a pattern [c] of
    one character takes every occurrence of [c] out of the text. *)
Fixpoint str_remove (c : ascii) (s : string) : string :=
  match s with
  | EmptyString => EmptyString
  | String a s' =>
      if Ascii.eqb a c then str_remove c s' else String a (str_remove c s')
  end.

(** The text of a weight cell before [.astype(float)]: the percent signs,
    then the commas, are taken out. *)
Definition clean_weight (s : string) : string :=
  str_remove "," (str_remove "%" s).

(** Line 32: [nasdaq_df.head(20)], on the index. *)
Definition top20 (nasdaq_index : list string) : list string :=
  firstn 20 nasdaq_index.

(** Lines 43-49 as the script runs them: the sliders of the first twenty
    index tickers, each at the position the user chose or at its default. *)
Definition portfolio_of_form (nasdaq_index : list string)
  (choice : string -> option Z) : Series Z :=
  build_portfolio (top20 nasdaq_index) (st_slider choice).

(** Lines 73-74: the closes of the exchange rate, [.dropna()], then
    [float(fx_data.iloc[0])]; position 0 of an empty series raises
    [IndexError]. *)
Definition dropna (closes : list float) : list float := filter notnan closes.

Definition fx_rate (closes : list float) : outcome float :=
  match dropna closes with
  | [] => Raises IndexError
  | x :: _ => Returns x
  end.

(** Lines 113-115: the weight the row would have after the purchase. *)
Definition new_weight (total purchase : float) (row : Row) : float :=
  fdiv (fmul (of_int 100) (fadd (Value row) purchase)) (fadd total purchase).

(** The weight column read as rationals: the weight of a held ticker, 0
    for the others. *)
Definition weight_q (portfolio : Series Z) (prices : Series float)
  (t : string) : Q :=
  if held_label portfolio t
  then inject_Z 100 * held_value portfolio prices t
       / held_total portfolio prices
  else 0.

Definition ascending_gap (a b : suggestion) : Prop :=
  fle (gap_of a) (gap_of b) = true.

(** * Properties *)

(** ** Order on doubles *)

Lemma flt_Fin (a b : Q) : flt (Fin a) (Fin b) = true <-> a < b.
Proof.
  simpl. rewrite Qlt_alt. destruct (a ?= b); split; congruence.
Qed.

Lemma fle_Fin (a b : Q) : fle (Fin a) (Fin b) = true <-> a <= b.
Proof.
  simpl. rewrite Qle_alt. destruct (a ?= b); split; congruence.
Qed.

Lemma fle_refl (x : float) : isnan x = false -> fle x x = true.
Proof.
  destruct x; simpl; try congruence. intros _.
  apply (proj2 (fle_Fin q q)). apply Qle_refl.
Qed.

Lemma fle_trans (x y z : float) :
  fle x y = true -> fle y z = true -> fle x z = true.
Proof.
  destruct x as [a| | |], y as [b| | |], z as [c| | |];
    try (simpl; congruence).
  rewrite !fle_Fin. apply Qle_trans.
Qed.

Lemma flt_fle (x y : float) : flt x y = true -> fle x y = true.
Proof.
  destruct x as [a| | |], y as [b| | |]; try (simpl; congruence).
  rewrite flt_Fin, fle_Fin. apply Qlt_le_weak.
Qed.

Lemma flt_fle_trans (x y z : float) :
  flt x y = true -> fle y z = true -> flt x z = true.
Proof.
  destruct x as [a| | |], y as [b| | |], z as [c| | |];
    try (simpl; congruence).
  rewrite !flt_Fin, fle_Fin. apply Qlt_le_trans.
Qed.

(** Without NaN the order is total. *)
Lemma not_flt_fle (x y : float) :
  isnan x = false -> isnan y = false -> flt x y = false -> fle y x = true.
Proof.
  destruct x as [a| | |], y as [b| | |]; simpl; try congruence.
  intros _ _. rewrite <- (Qcompare_antisym a b).
  destruct (a ?= b); simpl; congruence.
Qed.

Lemma flt_irrefl_fle (x y : float) : flt x y = true -> fle y x = false.
Proof.
  destruct x as [a| | |], y as [b| | |]; simpl; try congruence.
  rewrite <- (Qcompare_antisym a b). destruct (a ?= b); simpl; congruence.
Qed.

Lemma fillna0_notnan (x : float) : isnan (fillna0 x) = false.
Proof. destruct x; reflexivity. Qed.

(** ** Index labels *)

Lemma index_union_Permutation (a b : list string) :
  Permutation (nodup string_dec (a ++ b)) (index_union a b).
Proof. apply TickerSort.Permuted_sort. Qed.

Lemma index_union_In (a b : list string) (t : string) :
  In t (index_union a b) <-> In t a \/ In t b.
Proof.
  rewrite <- in_app_iff. split; intros H.
  - apply (nodup_In string_dec).
    apply (Permutation_in _ (Permutation_sym (index_union_Permutation a b))).
    exact H.
  - apply (Permutation_in _ (index_union_Permutation a b)).
    apply (nodup_In string_dec). exact H.
Qed.

Lemma index_union_NoDup (a b : list string) : NoDup (index_union a b).
Proof.
  apply (Permutation_NoDup (index_union_Permutation a b)), NoDup_nodup.
Qed.

Lemma get_In {A : Type} (s : Series A) (k : string) (v : A) :
  get s k = Some v -> In (k, v) s.
Proof.
  induction s as [|[k' v'] s IH]; simpl; [discriminate|].
  destruct (String.eqb_spec k' k) as [->|Hne].
  - intros [= ->]. now left.
  - intros H. right. auto.
Qed.

Lemma get_index {A : Type} (s : Series A) (k : string) :
  In k (index s) <-> exists v, get s k = Some v.
Proof.
  induction s as [|[k' v'] s IH]; simpl.
  - split; [tauto | intros [v H]; discriminate].
  - destruct (String.eqb_spec k' k) as [->|Hne].
    + split; [intros _; now exists v' | now left].
    + rewrite <- IH. split; [intros [H|H]; [contradiction | exact H] | now right].
Qed.

Lemma get_None {A : Type} (s : Series A) (k : string) :
  get s k = None <-> ~ In k (index s).
Proof.
  rewrite get_index. destruct (get s k) as [v|].
  - split; [discriminate | intros H; exfalso; apply H; now exists v].
  - split; [intros _ [v H]; discriminate | reflexivity].
Qed.

Lemma NoDup_get {A : Type} (s : Series A) (k : string) (v : A) :
  NoDup (index s) -> In (k, v) s -> get s k = Some v.
Proof.
  induction s as [|[k' v'] s IH]; simpl; [tauto|].
  intros Hnd [H|H].
  - injection H as -> ->. now rewrite String.eqb_refl.
  - inversion Hnd as [|? ? Hnin Hnd']; subst.
    destruct (String.eqb_spec k' k) as [->|Hne].
    + exfalso. apply Hnin. apply (in_map fst) in H. exact H.
    + auto.
Qed.

(** Looking a label up in a frame whose rows are computed from the labels. *)
Lemma find_by_label {R : Type} (key : R -> string) (g : string -> R)
  (l : list string) (t : string) :
  (forall k, key (g k) = k) ->
  find (fun r => (key r =? t)%string) (map g l)
  = if in_dec string_dec t l then Some (g t) else None.
Proof.
  intros Hkey. induction l as [|k l IH]; simpl; [reflexivity|].
  rewrite Hkey. destruct (String.eqb_spec k t) as [->|Hne].
  - destruct (string_dec t t); [reflexivity | contradiction].
  - rewrite IH. destruct (string_dec k t); [contradiction|].
    destruct (in_dec string_dec t l); reflexivity.
Qed.

(** ** The frame [df] *)


Lemma make_df_rows (portfolio : Series Z) (prices : Series float) :
  make_df portfolio prices
  = map (df_row_of portfolio prices)
        (index_union (index portfolio) (index prices)).
Proof.
  unfold make_df, df_values. rewrite map_map. reflexivity.
Qed.

Lemma make_df_index (portfolio : Series Z) (prices : Series float) :
  map df_Ticker (make_df portfolio prices)
  = index_union (index portfolio) (index prices).
Proof.
  rewrite make_df_rows, map_map. simpl. apply map_id.
Qed.

Lemma make_df_find (portfolio : Series Z) (prices : Series float) (t : string) :
  find (fun r => (df_Ticker r =? t)%string) (make_df portfolio prices)
  = if in_dec string_dec t (index_union (index portfolio) (index prices))
    then Some (df_row_of portfolio prices t) else None.
Proof.
  rewrite make_df_rows. apply find_by_label. reflexivity.
Qed.

(** ** The outer merge *)

Lemma filter_ticker_nil (nasdaq_df : list TargetWeight) (t : string) :
  filter (fun n => (tw_Ticker n =? t)%string) nasdaq_df = []
  <-> ~ In t (map tw_Ticker nasdaq_df).
Proof.
  induction nasdaq_df as [|n l IH]; simpl; [tauto|].
  destruct (String.eqb_spec (tw_Ticker n) t) as [E|E].
  - split; [discriminate | intros H; exfalso; apply H; now left].
  - rewrite IH. tauto.
Qed.

Lemma filter_ticker_In (nasdaq_df : list TargetWeight) (t : string)
  (n : TargetWeight) :
  In n (filter (fun n => (tw_Ticker n =? t)%string) nasdaq_df)
  <-> In n nasdaq_df /\ tw_Ticker n = t.
Proof. rewrite filter_In, String.eqb_eq. reflexivity. Qed.

(** With distinct tickers in [nasdaq_df] a label matches at most one row. *)
Lemma filter_ticker_NoDup (nasdaq_df : list TargetWeight) (t : string) :
  NoDup (map tw_Ticker nasdaq_df) ->
  filter (fun n => (tw_Ticker n =? t)%string) nasdaq_df = []
  \/ exists n, filter (fun n => (tw_Ticker n =? t)%string) nasdaq_df = [n].
Proof.
  induction nasdaq_df as [|n l IH]; simpl; [now left|].
  intros Hnd. inversion Hnd as [|? ? Hnin Hnd']; subst.
  destruct (String.eqb_spec (tw_Ticker n) t) as [E|E].
  - right. exists n. f_equal. apply filter_ticker_nil. now rewrite <- E.
  - auto.
Qed.

Lemma merge_outer_In (df : list DfRow) (nasdaq_df : list TargetWeight) (r : Row) :
  In r (merge_outer df nasdaq_df) <->
  exists t,
    In t (index_union (map df_Ticker df) (map tw_Ticker nasdaq_df)) /\
    let left := find (fun d => (df_Ticker d =? t)%string) df in
    (~ In t (map tw_Ticker nasdaq_df) /\ r = joined_row t left NaN
     \/ exists n, In n nasdaq_df /\ tw_Ticker n = t
                  /\ r = joined_row t left (tw_Weight n)).
Proof.
  unfold merge_outer. rewrite in_flat_map. split.
  - intros (t & Ht & Hr). exists t. split; [exact Ht|]. simpl.
    destruct (filter (fun n => (tw_Ticker n =? t)%string) nasdaq_df)
      as [|m ms] eqn:Hf.
    + left. split; [now apply filter_ticker_nil|].
      destruct Hr as [Hr|[]]. now symmetry.
    + right. rewrite <- Hf in Hr. apply in_map_iff in Hr.
      destruct Hr as (n & Hn & Hin). apply filter_ticker_In in Hin.
      exists n. repeat split; try tauto. now symmetry.
  - intros (t & Ht & Hr). exists t. split; [exact Ht|]. simpl in Hr.
    destruct Hr as [[Hnin ->]|(n & Hn & Ht' & ->)].
    + apply filter_ticker_nil in Hnin. rewrite Hnin. now left.
    + assert (Hin : In n (filter (fun n => (tw_Ticker n =? t)%string) nasdaq_df))
        by now apply filter_ticker_In.
      destruct (filter (fun n => (tw_Ticker n =? t)%string) nasdaq_df)
        as [|m ms] eqn:Hf; [contradiction|].
      apply in_map_iff. exists n. split; [reflexivity | exact Hin].
Qed.

Lemma merge_outer_tickers (df : list DfRow) (nasdaq_df : list TargetWeight) :
  NoDup (map tw_Ticker nasdaq_df) ->
  map Ticker (merge_outer df nasdaq_df)
  = index_union (map df_Ticker df) (map tw_Ticker nasdaq_df).
Proof.
  intros Hnd. unfold merge_outer.
  induction (index_union (map df_Ticker df) (map tw_Ticker nasdaq_df))
    as [|t l IH]; cbn [flat_map]; [reflexivity|].
  rewrite map_app, IH.
  destruct (filter_ticker_NoDup nasdaq_df t Hnd) as [->|[n ->]]; reflexivity.
Qed.

Lemma merge_outer_filled (df : list DfRow) (nasdaq_df : list TargetWeight)
  (r : Row) :
  In r (merge_outer df nasdaq_df) ->
  isnan (Value r) = false /\ isnan (Weight r) = false
  /\ isnan (Nasdaq100_Weight r) = false.
Proof.
  intros H. apply merge_outer_In in H. destruct H as (t & _ & H). simpl in H.
  destruct H as [[_ ->]|(n & _ & _ & ->)]; simpl; auto using fillna0_notnan.
Qed.

(** ** Sorting by the index weight *)

Lemma insert_desc_Permutation (r : Row) (l : list Row) :
  Permutation (r :: l) (insert_desc r l).
Proof.
  induction l as [|r' l IH]; simpl; [reflexivity|].
  destruct (flt (Nasdaq100_Weight r') (Nasdaq100_Weight r)); [reflexivity|].
  rewrite perm_swap. now constructor.
Qed.

Lemma sort_values_Permutation (rows : list Row) :
  Permutation rows (sort_values rows).
Proof.
  unfold sort_values.
  assert (H : forall acc, Permutation (rows ++ acc)
                (fold_left (fun acc r => insert_desc r acc) rows acc)).
  { induction rows as [|r rows IH]; intros acc; simpl; [reflexivity|].
    rewrite <- IH, <- insert_desc_Permutation.
    apply Permutation_middle. }
  specialize (H []). now rewrite app_nil_r in H.
Qed.

Lemma insert_desc_sorted (r : Row) (l : list Row) :
  isnan (Nasdaq100_Weight r) = false ->
  Forall (fun x => isnan (Nasdaq100_Weight x) = false) l ->
  StronglySorted descending l ->
  StronglySorted descending (insert_desc r l).
Proof.
  intros Hr Hl Hs. induction Hs as [|r' l Hs IH Hall]; simpl.
  - repeat constructor.
  - inversion Hl as [|? ? Hr' Hl']; subst.
    destruct (flt (Nasdaq100_Weight r') (Nasdaq100_Weight r)) eqn:E.
    + constructor; [now constructor|]. constructor.
      * now apply flt_fle.
      * eapply Forall_impl; [|exact Hall]. unfold descending. intros x Hx.
        eapply fle_trans; [exact Hx | now apply flt_fle].
    + constructor; [now apply IH|].
      apply (Permutation_Forall (insert_desc_Permutation r l)).
      constructor; [|exact Hall]. now apply not_flt_fle.
Qed.

Lemma sort_values_admissible (rows : list Row) :
  Forall (fun x => isnan (Nasdaq100_Weight x) = false) rows ->
  sort_values_spec rows (sort_values rows).
Proof.
  intros Hrows. split; [apply sort_values_Permutation|]. unfold sort_values.
  assert (H : forall acc,
             Forall (fun x => isnan (Nasdaq100_Weight x) = false) acc ->
             StronglySorted descending acc ->
             StronglySorted descending
               (fold_left (fun acc r => insert_desc r acc) rows acc)).
  { induction Hrows as [|r rows Hr Hrows IH]; intros acc Hacc Hs; simpl;
      [exact Hs|].
    apply IH.
    - apply (Permutation_Forall (insert_desc_Permutation r acc)).
      now constructor.
    - now apply insert_desc_sorted. }
  apply H; constructor.
Qed.

Lemma comparison_rows_keys (nasdaq_df : list TargetWeight)
  (portfolio : Series Z) (prices : Series float) :
  Forall (fun x => isnan (Nasdaq100_Weight x) = false)
         (comparison_rows nasdaq_df portfolio prices).
Proof.
  apply Forall_forall. intros r Hr. now apply merge_outer_filled in Hr.
Qed.

(** What the model computes is one of the tables the script can hold. *)
Lemma computeComparison_admissible (nasdaq_df : list TargetWeight)
  (portfolio : Series Z) (prices : Series float) :
  is_comparison nasdaq_df portfolio prices
    (computeComparison nasdaq_df portfolio prices).
Proof. apply sort_values_admissible, comparison_rows_keys. Qed.

Lemma is_comparison_In (nasdaq_df : list TargetWeight)
  (portfolio : Series Z) (prices : Series float) (out : list Row) (r : Row) :
  is_comparison nasdaq_df portfolio prices out ->
  (In r out <-> In r (comparison_rows nasdaq_df portfolio prices)).
Proof.
  intros [Hp _]. split; apply Permutation_in; [now symmetry | exact Hp].
Qed.

(** ** Rows of the comparison *)

Lemma joined_row_Ticker (t : string) (left : option DfRow) (w : float) :
  Ticker (joined_row t left w) = t.
Proof. reflexivity. Qed.

(** Every row of the merged frame is the filled join of the [df] row of
    its ticker (if any) with an index weight of its ticker (if any). *)
Lemma comparison_rows_inv (nasdaq_df : list TargetWeight)
  (portfolio : Series Z) (prices : Series float) (r : Row) :
  In r (comparison_rows nasdaq_df portfolio prices) ->
  exists left w,
    r = joined_row (Ticker r) left w
    /\ (left = Some (df_row_of portfolio prices (Ticker r))
        /\ (In (Ticker r) (index portfolio) \/ In (Ticker r) (index prices))
        \/ left = None /\ ~ In (Ticker r) (index portfolio)
           /\ ~ In (Ticker r) (index prices))
    /\ (w = NaN /\ ~ In (Ticker r) (map tw_Ticker nasdaq_df)
        \/ exists n, In n nasdaq_df /\ tw_Ticker n = Ticker r
                     /\ w = tw_Weight n).
Proof.
  unfold comparison_rows. intros H. apply merge_outer_In in H.
  destruct H as (t & _ & H). cbv zeta in H. rewrite make_df_find in H.
  assert (Hleft :
    let left := if in_dec string_dec t
                     (index_union (index portfolio) (index prices))
                then Some (df_row_of portfolio prices t) else None in
    left = Some (df_row_of portfolio prices t)
    /\ (In t (index portfolio) \/ In t (index prices))
    \/ left = None /\ ~ In t (index portfolio) /\ ~ In t (index prices)).
  { cbv zeta.
    destruct (in_dec string_dec t (index_union (index portfolio) (index prices)))
      as [Hin|Hnin]; rewrite index_union_In in *; [left | right]; tauto. }
  cbv zeta in Hleft.
  destruct H as [[Hnin ->]|(n & Hn & Ht & ->)]; rewrite joined_row_Ticker;
    eexists; eexists; (split; [reflexivity|]); (split; [exact Hleft|]).
  - now left.
  - right. now exists n.
Qed.

Lemma comparison_rows_ex (nasdaq_df : list TargetWeight)
  (portfolio : Series Z) (prices : Series float) (t : string) :
  In t (index portfolio) \/ In t (index prices)
  \/ In t (map tw_Ticker nasdaq_df) ->
  exists r, In r (comparison_rows nasdaq_df portfolio prices) /\ Ticker r = t.
Proof.
  intros Ht.
  assert (Hidx : In t (index_union (map df_Ticker (make_df portfolio prices))
                                   (map tw_Ticker nasdaq_df))).
  { rewrite index_union_In, make_df_index, index_union_In. tauto. }
  set (left := find (fun d => (df_Ticker d =? t)%string)
                    (make_df portfolio prices)).
  destruct (in_dec string_dec t (map tw_Ticker nasdaq_df)) as [Hin|Hnin].
  - apply in_map_iff in Hin. destruct Hin as (n & Hn & Hin).
    exists (joined_row t left (tw_Weight n)). split; [|reflexivity].
    apply merge_outer_In. exists t. split; [exact Hidx|]. right. now exists n.
  - exists (joined_row t left NaN). split; [|reflexivity].
    apply merge_outer_In. exists t. split; [exact Hidx|]. now left.
Qed.

Lemma Permutation_pair {A : Type} (a b : A) (l : list A) :
  Permutation [a; b] l -> l = [a; b] \/ l = [b; a].
Proof.
  intros H. pose proof (Permutation_length H) as Hlen.
  destruct l as [|x [|y [|z l]]]; try discriminate.
  assert (Ha : In a [x; y]) by (apply (Permutation_in _ H); now left).
  assert (Hb : In b [x; y]) by (apply (Permutation_in _ H); right; now left).
  assert (Hx : In x [a; b]) by (apply (Permutation_in _ (Permutation_sym H)); now left).
  assert (Hy : In y [a; b])
    by (apply (Permutation_in _ (Permutation_sym H)); right; now left).
  simpl in *.
  destruct Hx as [<-|[<-|[]]]; destruct Hy as [<-|[<-|[]]]; auto.
  - apply Permutation_cons_inv in H. apply Permutation_length_1 in H.
    subst. now left.
  - assert (H' : Permutation [b; a] [b; b])
      by (rewrite <- H; apply perm_swap).
    apply Permutation_cons_inv in H'. apply Permutation_length_1 in H'.
    subst. now left.
Qed.

(** ** The scenario of the specification *)

(** C1. In the scenario (targets AAPL 40 and MSFT 60, holdings AAPL 10 and
    MSFT 5, prices AAPL 100 and MSFT 200) every comparison table the
    script can hold has the values 1000 and 1000, the actual weights 50
    and 50 and the differences +10 (AAPL) and -10 (MSFT); the total is
    2000; with the purchase amount 1250 the suggestion is MSFT with
    1250/200 = 25/4 = 6.25 shares, target weight 60 and projected gap
    120/13, which is 9.23 to two decimals. *)
Theorem C1_end_to_end_scenario (out : list Row) (info : string -> option quote) :
  is_comparison ex_targets ex_holdings ex_prices out ->
  map row_red out = [ex_row_MSFT; ex_row_AAPL]
  /\ fred (total_usd ex_holdings ex_prices) = Fin 2000
  /\ (exists r,
        recommendPurchase out (total_usd ex_holdings ex_prices)
          (make_df ex_holdings ex_prices) info purchase_amount = Returns r
        /\ rec_red r = {| best_ticker := "MSFT"; shares_to_buy := Fin (25 # 4);
                          projected_gap := Fin (120 # 13);
                          target_weight := Fin 60 |})
  /\ 25 # 4 == 1250 / 200
  /\ 9225 # 1000 <= 120 # 13 /\ 120 # 13 < 9235 # 1000.
Proof.
  intros [Hperm Hsorted].
  remember (comparison_rows ex_targets ex_holdings ex_prices) as rows eqn:E.
  vm_compute in E. subst rows.
  apply Permutation_pair in Hperm. destruct Hperm as [-> | ->].
  - exfalso. inversion Hsorted as [|? ? _ Hall]; subst.
    inversion Hall as [|? ? Hd _]; subst. vm_compute in Hd. discriminate.
  - split; [vm_compute; reflexivity|].
    split; [vm_compute; reflexivity|].
    split.
    + eexists. split; [vm_compute; reflexivity | vm_compute; reflexivity].
    + repeat split; try (vm_compute; reflexivity). vm_compute. discriminate.
Qed.

Lemma C1_end_to_end_scenario_witness :
  is_comparison ex_targets ex_holdings ex_prices
    (computeComparison ex_targets ex_holdings ex_prices)
  /\ map row_red (computeComparison ex_targets ex_holdings ex_prices)
     = [ex_row_MSFT; ex_row_AAPL].
Proof.
  assert (H : is_comparison ex_targets ex_holdings ex_prices
                (computeComparison ex_targets ex_holdings ex_prices)).
  { split.
    - vm_compute. apply perm_swap.
    - vm_compute. repeat constructor. }
  split; [exact H|].
  exact (proj1 (C1_end_to_end_scenario _ no_info H)).
Defined.

(** ** Union of the tickers and defaults of the missing side *)

(** C4. When the index tickers are distinct and prices are quoted for held
    or index tickers only, every comparison table has exactly one row per
    ticker of the union of the index tickers and the held tickers: no
    ticker twice, none dropped, none added.  A row of an index ticker
    that is not held has actual weight 0; a row of a held ticker that is
    not in the index has target weight 0. *)
Theorem C4_union_completeness (nasdaq_df : list TargetWeight)
  (portfolio : Series Z) (prices : Series float) (out : list Row) :
  NoDup (map tw_Ticker nasdaq_df) ->
  (forall t, In t (index prices) ->
             In t (index portfolio) \/ In t (map tw_Ticker nasdaq_df)) ->
  is_comparison nasdaq_df portfolio prices out ->
  NoDup (map Ticker out)
  /\ (forall t, In t (map Ticker out)
                <-> In t (map tw_Ticker nasdaq_df) \/ In t (index portfolio))
  /\ (forall r, In r out ->
                In (Ticker r) (map tw_Ticker nasdaq_df) ->
                ~ In (Ticker r) (index portfolio) ->
                Weight r = Fin 0)
  /\ (forall r, In r out ->
                In (Ticker r) (index portfolio) ->
                ~ In (Ticker r) (map tw_Ticker nasdaq_df) ->
                Nasdaq100_Weight r = Fin 0).
Proof.
  intros Hnd Hprices Hout.
  assert (Htick : Permutation
            (index_union (index_union (index portfolio) (index prices))
                         (map tw_Ticker nasdaq_df))
            (map Ticker out)).
  { destruct Hout as [Hp _]. apply (Permutation_map Ticker) in Hp.
    unfold comparison_rows in Hp.
    rewrite (merge_outer_tickers _ _ Hnd), make_df_index in Hp. exact Hp. }
  split; [|split; [|split]].
  - apply (Permutation_NoDup Htick), index_union_NoDup.
  - intros t. split; intros H.
    + apply (Permutation_in _ (Permutation_sym Htick)) in H.
      rewrite !index_union_In in H.
      destruct H as [[H|H]|H]; auto. apply Hprices in H. tauto.
    + apply (Permutation_in _ Htick). rewrite !index_union_In. tauto.
  - intros r Hr _ Hnot. apply (is_comparison_In _ _ _ _ r Hout) in Hr.
    destruct (comparison_rows_inv _ _ _ _ Hr) as (left & w & -> & Hleft & _).
    simpl in *. destruct Hleft as [[-> _]|[-> _]]; simpl; [|reflexivity].
    apply get_None in Hnot. now rewrite Hnot.
  - intros r Hr _ Hnot. apply (is_comparison_In _ _ _ _ r Hout) in Hr.
    destruct (comparison_rows_inv _ _ _ _ Hr) as (left & w & -> & _ & Hw).
    simpl in *. destruct Hw as [[-> _]|(n & Hn & Ht & _)]; [reflexivity|].
    exfalso. apply Hnot. rewrite <- Ht. now apply in_map.
Qed.

Lemma C4_union_completeness_witness :
  NoDup (map Ticker
           (computeComparison [tw "AAPL" 40; tw "MSFT" 60]
              [("AAPL", 10%Z); ("CSCO", 23%Z)]
              [("AAPL", of_int 100); ("CSCO", of_int 50)]))
  /\ map Ticker
       (computeComparison [tw "AAPL" 40; tw "MSFT" 60]
          [("AAPL", 10%Z); ("CSCO", 23%Z)]
          [("AAPL", of_int 100); ("CSCO", of_int 50)])
     = ["MSFT"; "AAPL"; "CSCO"].
Proof.
  split; [|vm_compute; reflexivity].
  refine (proj1 (C4_union_completeness
                   [tw "AAPL" 40; tw "MSFT" 60]
                   [("AAPL", 10%Z); ("CSCO", 23%Z)]
                   [("AAPL", of_int 100); ("CSCO", of_int 50)] _ _ _ _)).
  - simpl. repeat constructor; simpl; intuition discriminate.
  - simpl. intros t [<-|[<-|[]]]; left; auto.
  - split.
    + apply sort_values_Permutation.
    + vm_compute. repeat constructor.
Defined.

(** ** Missing prices and zero totals: no error is raised *)

(** Holdings AAPL: 10 and no price at all: the comparison is returned, with
    the value of AAPL at zero. *)
Lemma C5_missing_price_counterexample :
  computeComparison [] [("AAPL", 10%Z)] []
  = [ {| Ticker := "AAPL"; Shares := Fin 10; Price := Fin 0; Value := Fin 0;
         Weight := Fin 0; Nasdaq100_Weight := Fin 0; Difference := Fin 0 |} ].
Proof. vm_compute. reflexivity. Qed.

(** C5, as the code has it.  A held ticker without an entry in the prices
    gets no error: its price and value are NaN in [df] (so the total skips
    it) and [fillna(0)] turns them into 0 in the comparison, where the
    ticker has a row with price 0, value 0 and actual weight 0. *)
Theorem C5_missing_price_filled_with_zero (nasdaq_df : list TargetWeight)
  (portfolio : Series Z) (prices : Series float) (out : list Row)
  (t : string) (s : Z) :
  get portfolio t = Some s ->
  get prices t = None ->
  is_comparison nasdaq_df portfolio prices out ->
  isnan (df_Value (df_row_of portfolio prices t)) = true
  /\ (exists r, In r out /\ Ticker r = t)
  /\ (forall r, In r out -> Ticker r = t ->
                Shares r = of_int s /\ Price r = Fin 0 /\ Value r = Fin 0
                /\ Weight r = Fin 0).
Proof.
  intros Hs Hp Hout. split; [|split].
  - unfold df_row_of. simpl. rewrite Hs, Hp. reflexivity.
  - destruct (comparison_rows_ex nasdaq_df portfolio prices t) as (r & Hr & Ht).
    { left. apply get_index. now exists s. }
    exists r. split; [|exact Ht]. now apply (is_comparison_In _ _ _ _ r Hout).
  - intros r Hr Ht. apply (is_comparison_In _ _ _ _ r Hout) in Hr.
    destruct (comparison_rows_inv _ _ _ _ Hr) as (left & w & E & Hleft & _).
    rewrite Ht in *. destruct Hleft as [[-> _]|[_ [Hnin _]]].
    + rewrite E. simpl. rewrite Hs, Hp. simpl. auto.
    + exfalso. apply Hnin. apply get_index. now exists s.
Qed.

Lemma C5_missing_price_filled_with_zero_witness :
  get [("AAPL", 10%Z)] "AAPL" = Some 10%Z
  /\ get (A := float) [] "AAPL" = None
  /\ exists r, In r (computeComparison [] [("AAPL", 10%Z)] [])
               /\ Ticker r = "AAPL".
Proof.
  split; [reflexivity|]. split; [reflexivity|].
  refine (proj1 (proj2 (C5_missing_price_filled_with_zero
                          [] [("AAPL", 10%Z)] [] _ "AAPL" 10 _ _ _))).
  - reflexivity.
  - reflexivity.
  - split; [apply sort_values_Permutation | vm_compute; repeat constructor].
Defined.

(** Holdings AAPL: 0 at price 150, total value zero: the comparison is
    returned, with the actual weight of AAPL at 0. *)
Lemma C6_zero_total_counterexample :
  computeComparison [] [("AAPL", 0%Z)] [("AAPL", of_int 150)]
  = [ {| Ticker := "AAPL"; Shares := Fin 0; Price := Fin 150; Value := Fin 0;
         Weight := Fin 0; Nasdaq100_Weight := Fin 0; Difference := Fin 0 |} ].
Proof. vm_compute. reflexivity. Qed.

(** Line 64 with a total of zero: the weight of a value that is zero is
    0/0, NaN; that of any other value is the infinity of its sign. *)
Lemma zero_total_weight (v : float) (T : Q) :
  T == 0 ->
  (feq v (Fin 0) -> fdiv (fmul (of_int 100) v) (Fin T) = NaN)
  /\ (isnan v = true -> fdiv (fmul (of_int 100) v) (Fin T) = NaN)
  /\ (flt (Fin 0) v = true -> fdiv (fmul (of_int 100) v) (Fin T) = PInf)
  /\ (flt v (Fin 0) = true -> fdiv (fmul (of_int 100) v) (Fin T) = NInf).
Proof.
  intros HT. apply Qeq_alt in HT. destruct v as [a| | |].
  - assert (E : fdiv (fmul (of_int 100) (Fin a)) (Fin T)
                = signed_inf (100 * a) true) by (simpl; now rewrite HT).
    rewrite E. unfold signed_inf.
    destruct (Qcompare_spec (100 * a) 0) as [H|H|H]; repeat split;
      intros Hv; try reflexivity; try discriminate; exfalso;
      first [apply flt_Fin in Hv | simpl in Hv]; lra.
  - assert (E : fdiv (fmul (of_int 100) PInf) (Fin T) = PInf)
      by (simpl; now rewrite HT).
    rewrite E. repeat split; intros Hv; try reflexivity; try discriminate.
    contradiction.
  - assert (E : fdiv (fmul (of_int 100) NInf) (Fin T) = NInf)
      by (simpl; now rewrite HT).
    rewrite E. repeat split; intros Hv; try reflexivity; try discriminate.
    contradiction.
  - repeat split; intros Hv; try reflexivity; discriminate.
Qed.

(** C6, as the code has it.  When the total held value is zero no error is
    raised and the comparison is returned.  In [df] the weight of a ticker
    of value zero is the undefined 0/0, NaN, and the weight of a ticker
    of another value is the infinity of the sign of that value; in the
    comparison [fillna(0)] has replaced the NaN by 0, so a ticker of
    value zero has the actual weight 0 and a ticker of non-zero value an
    infinite weight. *)
Theorem C6_zero_total_no_error (nasdaq_df : list TargetWeight)
  (portfolio : Series Z) (prices : Series float) (out : list Row) :
  feq (total_usd portfolio prices) (Fin 0) ->
  is_comparison nasdaq_df portfolio prices out ->
  (forall d, In d (make_df portfolio prices) ->
     (feq (df_Value d) (Fin 0) -> df_Weight d = NaN)
     /\ (isnan (df_Value d) = true -> df_Weight d = NaN)
     /\ (flt (Fin 0) (df_Value d) = true -> df_Weight d = PInf)
     /\ (flt (df_Value d) (Fin 0) = true -> df_Weight d = NInf))
  /\ (forall r, In r out ->
       (feq (Value r) (Fin 0) -> Weight r = Fin 0)
       /\ (flt (Fin 0) (Value r) = true -> Weight r = PInf)
       /\ (flt (Value r) (Fin 0) = true -> Weight r = NInf)
       /\ (Weight r = Fin 0 \/ Weight r = PInf \/ Weight r = NInf)).
Proof.
  intros Htot Hout.
  destruct (total_usd portfolio prices) as [T| | |] eqn:ET;
    simpl in Htot; try tauto.
  assert (Hdf : forall t,
            let d := df_row_of portfolio prices t in
            (feq (df_Value d) (Fin 0) -> df_Weight d = NaN)
            /\ (isnan (df_Value d) = true -> df_Weight d = NaN)
            /\ (flt (Fin 0) (df_Value d) = true -> df_Weight d = PInf)
            /\ (flt (df_Value d) (Fin 0) = true -> df_Weight d = NInf)).
  { intros t. unfold df_row_of. cbn [df_Value df_Weight]. cbv zeta.
    rewrite ET. now apply zero_total_weight. }
  split.
  - intros d Hd. rewrite make_df_rows in Hd. apply in_map_iff in Hd.
    destruct Hd as (t & <- & _). apply Hdf.
  - intros r Hr. apply (is_comparison_In _ _ _ _ r Hout) in Hr.
    destruct (comparison_rows_inv _ _ _ _ Hr) as (left & w & Er & Hleft & _).
    rewrite Er. cbn [Value Weight joined_row].
    destruct Hleft as [[-> _]|[-> _]]; cbn [option_map cell].
    + destruct (Hdf (Ticker r)) as (H0 & Hn & Hp & Hm). cbv zeta in *.
      destruct (df_Value (df_row_of portfolio prices (Ticker r)))
        as [a| | |] eqn:EV; cbn [fillna0].
      * destruct (Qcompare_spec a 0) as [E|E|E].
        -- rewrite (H0 E). simpl. repeat split; try tauto.
           ++ intros H. apply flt_Fin in H. lra.
           ++ intros H. apply flt_Fin in H. lra.
        -- rewrite (Hm (proj2 (flt_Fin a 0) E)). simpl. repeat split; try tauto.
           ++ intros H. simpl in H. lra.
           ++ intros H. apply flt_Fin in H. lra.
        -- rewrite (Hp (proj2 (flt_Fin 0 a) E)). simpl. repeat split; try tauto.
           ++ intros H. simpl in H. lra.
           ++ intros H. apply flt_Fin in H. lra.
      * rewrite (Hp eq_refl). simpl. repeat split; try tauto; discriminate.
      * rewrite (Hm eq_refl). simpl. repeat split; try tauto; discriminate.
      * rewrite (Hn eq_refl). simpl. repeat split; try tauto; discriminate.
    + simpl. repeat split; try tauto; discriminate.
Qed.

Lemma C6_zero_total_no_error_witness :
  feq (total_usd [("AAPL", 0%Z)] [("AAPL", of_int 150)]) (Fin 0)
  /\ Forall (fun r => Weight r = Fin 0)
       (computeComparison [] [("AAPL", 0%Z)] [("AAPL", of_int 150)]).
Proof.
  split; [vm_compute; reflexivity|]. apply Forall_forall. intros r Hr.
  refine (proj1 (proj2 (C6_zero_total_no_error
                   [] [("AAPL", 0%Z)] [("AAPL", of_int 150)] _ _ _) r Hr) _).
  - vm_compute. reflexivity.
  - split; [apply sort_values_Permutation | vm_compute; repeat constructor].
  - vm_compute in Hr. destruct Hr as [<-|[]]. vm_compute. reflexivity.
Defined.

(** ** No candidate *)

(** C8. With no comparison row the suggestion fails, and with this one
    failure: [suggestions[0]] on the empty list raises [IndexError], the
    error the script has for a request without candidates.  Empty targets
    and holdings (no price being fetched) give the empty comparison. *)
Theorem C8_no_candidates :
  (forall total df info purchase,
      recommendPurchase [] total df info purchase = Raises IndexError)
  /\ computeComparison [] [] [] = []
  /\ (forall out info,
        is_comparison [] [] [] out ->
        out = []
        /\ recommendPurchase out (total_usd [] []) (make_df [] []) info
             purchase_amount = Raises IndexError).
Proof.
  split; [reflexivity|]. split; [reflexivity|].
  intros out info [Hp _]. apply Permutation_nil in Hp. subst out.
  split; reflexivity.
Qed.

Lemma C8_no_candidates_witness :
  is_comparison [] [] [] (computeComparison [] [] [])
  /\ recommendPurchase (computeComparison [] [] []) (total_usd [] [])
       (make_df [] []) no_info purchase_amount = Raises IndexError.
Proof.
  assert (H : is_comparison [] [] [] (computeComparison [] [] []))
    by (split; [apply sort_values_Permutation | vm_compute; constructor]).
  split; [exact H|].
  exact (proj2 (proj2 (proj2 C8_no_candidates) _ no_info H)).
Defined.

(** ** The suggestion *)


Lemma sort_by_gap_head (l : list suggestion) :
  hd_error (sort_by_gap l) = first_min l.
Proof.
  induction l as [|s l IH]; simpl; [reflexivity|].
  rewrite <- IH. destruct (sort_by_gap l) as [|h t]; simpl; [reflexivity|].
  destruct (flt (gap_of h) (gap_of s)); reflexivity.
Qed.

Lemma first_min_nil (l : list suggestion) : first_min l = None -> l = [].
Proof.
  destruct l as [|s l]; simpl; [reflexivity|].
  destruct (first_min l) as [h|]; [|discriminate].
  destruct (flt (gap_of h) (gap_of s)); discriminate.
Qed.

Lemma first_min_spec (l : list suggestion) (s : suggestion) :
  (forall x, In x l -> isnan (gap_of x) = false) ->
  first_min l = Some s ->
  exists i,
    nth_error l i = Some s
    /\ (forall x, In x l -> fle (gap_of s) (gap_of x) = true)
    /\ (forall j x, (j < i)%nat -> nth_error l j = Some x ->
                    flt (gap_of s) (gap_of x) = true).
Proof.
  revert s. induction l as [|a l IH]; intros s Hnan; simpl; [discriminate|].
  assert (Hnan' : forall x, In x l -> isnan (gap_of x) = false)
    by (intros x Hx; apply Hnan; now right).
  assert (Ha : isnan (gap_of a) = false) by (apply Hnan; now left).
  destruct (first_min l) as [h|] eqn:Hmin.
  - destruct (IH h Hnan' eq_refl) as (i & Hi & Hle & Hlt).
    assert (Hh : isnan (gap_of h) = false)
      by (apply Hnan'; eapply nth_error_In; exact Hi).
    destruct (flt (gap_of h) (gap_of a)) eqn:E; intros [= <-].
    + exists (S i). split; [exact Hi|]. split.
      * intros x [<-|Hx]; [now apply flt_fle | now apply Hle].
      * intros [|j] x Hj Hx; simpl in Hx.
        -- now injection Hx as <-.
        -- apply (Hlt j); [lia | exact Hx].
    + exists 0%nat. split; [reflexivity|]. split.
      * pose proof (not_flt_fle _ _ Hh Ha E) as Hah.
        intros x [<-|Hx]; [now apply fle_refl|].
        eapply fle_trans; [exact Hah | now apply Hle].
      * intros j x Hj. lia.
  - intros [= <-]. apply first_min_nil in Hmin. subst l.
    exists 0%nat. split; [reflexivity|]. split.
    + intros x [<-|[]]. now apply fle_refl.
    + intros j x Hj. lia.
Qed.

Lemma select_best_first_min (total purchase : float) (rows : list Row) :
  select_best total purchase rows
  = match first_min (suggestions total purchase rows) with
    | Some s => Returns s
    | None => Raises IndexError
    end.
Proof.
  unfold select_best. rewrite <- sort_by_gap_head.
  destruct (sort_by_gap _); reflexivity.
Qed.

(** The gap is a number as soon as the cells are finite and the new total
    is not zero. *)
Lemma new_diff_notnan (total purchase : float) (r : Row) (T P v w : Q) :
  total = Fin T -> purchase = Fin P -> Value r = Fin v ->
  Nasdaq100_Weight r = Fin w -> ~ T + P == 0 ->
  isnan (new_diff total purchase r) = false.
Proof.
  intros -> -> Hv Hw Hne. unfold new_diff. rewrite Hv, Hw. simpl.
  destruct (Qcompare_spec (T + P) 0) as [E|E|E]; [contradiction| |];
    reflexivity.
Qed.

(** Without rounding the definitions in double precision are the exact
    ones. *)
Lemma fround_exact (x : float) : fround no_rounding x = x.
Proof. destruct x; reflexivity. Qed.

Lemma new_diff_rnd_exact (total purchase : float) (row : Row) :
  new_diff_rnd no_rounding total purchase row = new_diff total purchase row.
Proof.
  unfold new_diff_rnd, new_diff, radd, rsub, rmul, rdiv.
  now rewrite !fround_exact.
Qed.

Lemma select_best_rnd_exact (total purchase : float) (rows : list Row) :
  select_best_rnd no_rounding total purchase rows
  = select_best total purchase rows.
Proof.
  unfold select_best_rnd, select_best, suggestions_rnd, suggestions.
  assert (E : map (fun row =>
                     (Ticker row, new_diff_rnd no_rounding total purchase row,
                      Nasdaq100_Weight row)) rows
              = map (fun row => (Ticker row, new_diff total purchase row,
                                 Nasdaq100_Weight row)) rows).
  { apply map_ext. intros row. now rewrite new_diff_rnd_exact. }
  now rewrite E.
Qed.

Lemma truediv_rnd_exact (purchase : float) (price : price_obj) :
  truediv_rnd no_rounding purchase price = truediv purchase price.
Proof.
  destruct price as [x|x|]; simpl; unfold rdiv;
    now rewrite ?fround_exact.
Qed.

Lemma recommendPurchase_rnd_exact (rows : list Row) (total : float)
  (df : list DfRow) (info : string -> option quote) (purchase : float) :
  recommendPurchase_rnd no_rounding rows total df info purchase
  = recommendPurchase rows total df info purchase.
Proof.
  unfold recommendPurchase_rnd, recommendPurchase.
  rewrite select_best_rnd_exact.
  destruct (select_best total purchase rows) as [[[t g] w]|e]; [|reflexivity].
  destruct (price_of df info t) as [price|e]; [|reflexivity].
  now rewrite truediv_rnd_exact.
Qed.

Lemma select_best_rnd_first_min (rnd : Q -> Q) (total purchase : float)
  (rows : list Row) :
  select_best_rnd rnd total purchase rows
  = match first_min (suggestions_rnd rnd total purchase rows) with
    | Some s => Returns s
    | None => Raises IndexError
    end.
Proof.
  unfold select_best_rnd. rewrite <- sort_by_gap_head.
  destruct (sort_by_gap _); reflexivity.
Qed.

(** The gap of a row with finite cells, operation by operation. *)
Lemma new_diff_rnd_formula (rnd : Q -> Q) (r : Row) (T P v w : Q) :
  Value r = Fin v -> Nasdaq100_Weight r = Fin w -> ~ rnd (T + P) == 0 ->
  new_diff_rnd rnd (Fin T) (Fin P) r
  = Fin (Qabs (rnd (rnd (rnd (100 * rnd (v + P)) / rnd (T + P)) - w))).
Proof.
  intros Hv Hw Hne. unfold new_diff_rnd, radd, rsub, rmul, rdiv.
  rewrite Hv, Hw. simpl.
  destruct (Qcompare_spec (rnd (T + P)) 0) as [E|E|E]; [contradiction| |];
    reflexivity.
Qed.

(** C2. The gap of a row is |100 (value + purchase) / (total + purchase)
    - target|, each operation giving the double nearest to its result
    ([rnd]; the identity in exact arithmetic).  For a non-empty sequence
    of rows whose gaps so computed are numbers, the row chosen is at a
    position [i] of the sequence, its gap is at most the gap of every
    row, and strictly below the gap of every row before position [i]:
    the first row of minimal gap.  The suggestion returned carries its
    ticker, gap and target weight.  In particular a ticker whose gap is
    strictly below that of every other ticker is chosen. *)
Theorem C2_minimal_gap_first_in_order (rnd : Q -> Q) (rows : list Row)
  (total purchase : float) :
  rows <> [] ->
  (forall r, In r rows -> isnan (new_diff_rnd rnd total purchase r) = false) ->
  (forall r T P v w,
      total = Fin T -> purchase = Fin P ->
      Value r = Fin v -> Nasdaq100_Weight r = Fin w -> ~ rnd (T + P) == 0 ->
      new_diff_rnd rnd total purchase r
      = Fin (Qabs (rnd (rnd (rnd (100 * rnd (v + P)) / rnd (T + P)) - w))))
  /\ (forall r T P v w,
        total = Fin T -> purchase = Fin P ->
        Value r = Fin v -> Nasdaq100_Weight r = Fin w -> ~ T + P == 0 ->
        new_diff_rnd no_rounding total purchase r = new_diff total purchase r
        /\ new_diff total purchase r
           = Fin (Qabs (100 * (v + P) / (T + P) - w)))
  /\ exists i r,
      nth_error rows i = Some r
      /\ select_best_rnd rnd total purchase rows
         = Returns (Ticker r, new_diff_rnd rnd total purchase r,
                    Nasdaq100_Weight r)
      /\ (forall r', In r' rows ->
            fle (new_diff_rnd rnd total purchase r)
                (new_diff_rnd rnd total purchase r') = true)
      /\ (forall j r', (j < i)%nat -> nth_error rows j = Some r' ->
            flt (new_diff_rnd rnd total purchase r)
                (new_diff_rnd rnd total purchase r') = true)
      /\ (forall df info price shares,
            price_of df info (Ticker r) = Returns price ->
            truediv_rnd rnd purchase price = Returns shares ->
            recommendPurchase_rnd rnd rows total df info purchase
            = Returns {| best_ticker := Ticker r;
                         shares_to_buy := shares;
                         projected_gap := new_diff_rnd rnd total purchase r;
                         target_weight := Nasdaq100_Weight r |})
      /\ (forall r0, In r0 rows ->
            (forall r', In r' rows -> Ticker r' <> Ticker r0 ->
               flt (new_diff_rnd rnd total purchase r0)
                   (new_diff_rnd rnd total purchase r') = true) ->
            Ticker r = Ticker r0).
Proof.
  intros Hne Hnan. split; [|split].
  { intros r T P v w -> -> Hv Hw HTP. now apply new_diff_rnd_formula. }
  { intros r T P v w -> -> Hv Hw HTP.
    split; [apply new_diff_rnd_exact|]. rewrite <- new_diff_rnd_exact.
    now apply (new_diff_rnd_formula no_rounding). }
  set (f := fun row => (Ticker row, new_diff_rnd rnd total purchase row,
                        Nasdaq100_Weight row)).
  assert (Hsugg : suggestions_rnd rnd total purchase rows = map f rows)
    by reflexivity.
  assert (Hnan' : forall x, In x (suggestions_rnd rnd total purchase rows) ->
                            isnan (gap_of x) = false).
  { intros x Hx. rewrite Hsugg in Hx. apply in_map_iff in Hx.
    destruct Hx as (r & <- & Hr). now apply Hnan. }
  destruct (first_min (suggestions_rnd rnd total purchase rows)) as [s|] eqn:Hmin.
  2:{ apply first_min_nil in Hmin. rewrite Hsugg in Hmin.
      apply map_eq_nil in Hmin. contradiction. }
  destruct (first_min_spec _ s Hnan' Hmin) as (i & Hi & Hle & Hlt).
  rewrite Hsugg, nth_error_map in Hi.
  destruct (nth_error rows i) as [r|] eqn:Hr; [|discriminate].
  injection Hi as <-.
  assert (Hbest : select_best_rnd rnd total purchase rows = Returns (f r))
    by (rewrite select_best_rnd_first_min, Hmin; reflexivity).
  assert (Hmin_all : forall r', In r' rows ->
            fle (new_diff_rnd rnd total purchase r)
                (new_diff_rnd rnd total purchase r') = true).
  { intros r' Hr'. apply (Hle (f r')). rewrite Hsugg. now apply in_map. }
  exists i, r. split; [exact Hr|]. split; [exact Hbest|].
  split; [exact Hmin_all|]. split; [|split].
  - intros j r' Hj Hr'. apply (Hlt j (f r') Hj).
    rewrite Hsugg, nth_error_map, Hr'. reflexivity.
  - intros df info price shares Hprice Hshares. unfold recommendPurchase_rnd.
    rewrite Hbest. unfold f. rewrite Hprice, Hshares. reflexivity.
  - intros r0 Hr0 Huniq.
    destruct (string_dec (Ticker r) (Ticker r0)) as [E|E]; [exact E|].
    exfalso. apply nth_error_In in Hr.
    pose proof (Huniq r Hr E) as Hlt0. apply flt_irrefl_fle in Hlt0.
    rewrite (Hmin_all r0 Hr0) in Hlt0. discriminate.
Qed.

(** Targets AAPL 61 and MSFT 59, holdings AAPL 4 and MSFT 23 at the
    prices 100 and 200: both gaps are 173/5 in exact arithmetic, where
    the first row, AAPL, is chosen; in doubles the gap of MSFT is the
    smaller by one unit in the last place, and MSFT is chosen. *)
Lemma rounding_breaks_a_tie :
  map Ticker tie_rows = ["AAPL"; "MSFT"]
  /\ map (fun r => fred (new_diff tie_total purchase_amount r)) tie_rows
     = [Fin (173 # 5); Fin (173 # 5)]
  /\ select_best tie_total purchase_amount tie_rows
     = Returns ("AAPL", new_diff tie_total purchase_amount
                          (nth 0 tie_rows ex_row_AAPL), Fin 61)
  /\ map (fun r => new_diff_rnd round_b64 tie_total purchase_amount r)
         tie_rows
     = [Fin (4869517097094349 # 140737488355328);
        Fin (1217379274273587 # 35184372088832)]
  /\ select_best_rnd round_b64 tie_total purchase_amount tie_rows
     = Returns ("MSFT", Fin (1217379274273587 # 35184372088832), Fin 59).
Proof.
  repeat split; vm_compute; reflexivity.
Qed.

Lemma C2_minimal_gap_first_in_order_witness :
  tie_rows <> []
  /\ (forall r, In r tie_rows ->
        isnan (new_diff_rnd round_b64 tie_total purchase_amount r) = false)
  /\ exists i r,
       nth_error tie_rows i = Some r
       /\ Ticker r = "MSFT"
       /\ select_best_rnd round_b64 tie_total purchase_amount tie_rows
          = Returns (Ticker r,
                     new_diff_rnd round_b64 tie_total purchase_amount r,
                     Nasdaq100_Weight r).
Proof.
  assert (H1 : tie_rows <> []) by (vm_compute; discriminate).
  assert (H2 : forall r, In r tie_rows ->
             isnan (new_diff_rnd round_b64 tie_total purchase_amount r)
             = false).
  { intros r Hr. vm_compute in Hr.
    destruct Hr as [<-|[<-|[]]]; vm_compute; reflexivity. }
  split; [exact H1|]. split; [exact H2|].
  destruct (C2_minimal_gap_first_in_order round_b64 _ _ _ H1 H2)
    as (_ & _ & i & r & Hi & Hbest & _).
  exists i, r. split; [exact Hi|]. split; [|exact Hbest].
  assert (E : match select_best_rnd round_b64 tie_total purchase_amount
                      tie_rows
              with
              | Returns s => fst (fst s)
              | Raises _ => ""
              end = "MSFT")
    by (vm_compute; reflexivity).
  rewrite Hbest in E. exact E.
Defined.

(** ** The price of the suggested ticker *)


(** The ticker chosen has no entry in the prices.  Not held: the quote of
    the market data service gives 1250/125 = 10 shares.  Held: the share
    count is NaN.  In both cases a suggestion is returned. *)
Lemma C7_price_source_counterexample :
  get (A := float) [] "AAPL" = None
  /\ (exists r,
        recommendPurchase (computeComparison [tw "AAPL" 40] [] [])
          (total_usd [] []) (make_df [] []) quote_125 purchase_amount
        = Returns r
        /\ rec_red r = {| best_ticker := "AAPL"; shares_to_buy := Fin 10;
                          projected_gap := Fin 60; target_weight := Fin 40 |})
  /\ (exists r,
        recommendPurchase
          (computeComparison [tw "AAPL" 40] [("AAPL", 10%Z)] [])
          (total_usd [("AAPL", 10%Z)] []) (make_df [("AAPL", 10%Z)] [])
          no_info purchase_amount
        = Returns r
        /\ rec_red r = {| best_ticker := "AAPL"; shares_to_buy := NaN;
                          projected_gap := Fin 60; target_weight := Fin 40 |}).
Proof.
  split; [reflexivity|]. split; eexists; split; vm_compute; reflexivity.
Qed.

Lemma fdiv_nan_r (x : float) : fdiv x NaN = NaN.
Proof. destruct x; reflexivity. Qed.

(** C7, as the code has it.  For the ticker chosen, with [df] the frame of
    the holdings and prices: when the prices have an entry for it, the
    share count is the purchase amount divided by that price; when they
    have none and the ticker is held, its price in [df] is NaN and so is
    the share count, without an error.  When the ticker is neither held
    nor priced, the price is asked from the market data service: a quote
    that is a number other than zero gives the purchase amount divided by
    it, a quote of zero is a [ZeroDivisionError], a null quote a
    [TypeError] and a missing quote a [KeyError]. *)
Theorem C7_shares_to_buy (rows : list Row) (total purchase : float)
  (portfolio : Series Z) (prices : Series float)
  (info : string -> option quote) (t : string) (gap target : float) :
  select_best total purchase rows = Returns (t, gap, target) ->
  (forall p, get prices t = Some p ->
      recommendPurchase rows total (make_df portfolio prices) info purchase
      = Returns {| best_ticker := t; shares_to_buy := fdiv purchase p;
                   projected_gap := gap; target_weight := target |})
  /\ (get prices t = None -> In t (index portfolio) ->
      recommendPurchase rows total (make_df portfolio prices) info purchase
      = Returns {| best_ticker := t; shares_to_buy := NaN;
                   projected_gap := gap; target_weight := target |})
  /\ (forall p, get prices t = None -> ~ In t (index portfolio) ->
      info t = Some (Number p) -> is_zero p = false ->
      recommendPurchase rows total (make_df portfolio prices) info purchase
      = Returns {| best_ticker := t; shares_to_buy := fdiv purchase p;
                   projected_gap := gap; target_weight := target |})
  /\ (forall p, get prices t = None -> ~ In t (index portfolio) ->
      info t = Some (Number p) -> is_zero p = true ->
      recommendPurchase rows total (make_df portfolio prices) info purchase
      = Raises ZeroDivisionError)
  /\ (get prices t = None -> ~ In t (index portfolio) ->
      info t = Some Null ->
      recommendPurchase rows total (make_df portfolio prices) info purchase
      = Raises TypeError)
  /\ (get prices t = None -> ~ In t (index portfolio) -> info t = None ->
      recommendPurchase rows total (make_df portfolio prices) info purchase
      = Raises KeyError).
Proof.
  intros Hbest. unfold recommendPurchase, price_of. rewrite Hbest.
  rewrite make_df_find.
  destruct (in_dec string_dec t (index_union (index portfolio) (index prices)))
    as [Hin|Hnin]; rewrite index_union_In in *.
  - repeat split.
    + intros p Hp. simpl. now rewrite Hp.
    + intros Hp _. simpl. rewrite Hp. simpl. now rewrite fdiv_nan_r.
    + intros p Hp Hnot _ _. exfalso. apply get_None in Hp. tauto.
    + intros p Hp Hnot _ _. exfalso. apply get_None in Hp. tauto.
    + intros Hp Hnot _. exfalso. apply get_None in Hp. tauto.
    + intros Hp Hnot _. exfalso. apply get_None in Hp. tauto.
  - repeat split.
    + intros p Hp. exfalso. apply Hnin. right. apply get_index. now exists p.
    + intros _ Hin. tauto.
    + intros p _ _ -> Hz. simpl. now rewrite Hz.
    + intros p _ _ -> Hz. simpl. now rewrite Hz.
    + intros _ _ ->. reflexivity.
    + intros _ _ ->. reflexivity.
Qed.

Lemma C7_shares_to_buy_witness :
  select_best (total_usd ex_holdings ex_prices) purchase_amount
    [ex_row_MSFT; ex_row_AAPL]
  = Returns ("MSFT",
             new_diff (total_usd ex_holdings ex_prices) purchase_amount
               ex_row_MSFT,
             Fin 60)
  /\ recommendPurchase [ex_row_MSFT; ex_row_AAPL]
       (total_usd ex_holdings ex_prices) (make_df ex_holdings ex_prices)
       no_info purchase_amount
     = Returns {| best_ticker := "MSFT";
                  shares_to_buy := fdiv purchase_amount (of_int 200);
                  projected_gap :=
                    new_diff (total_usd ex_holdings ex_prices) purchase_amount
                      ex_row_MSFT;
                  target_weight := Fin 60 |}.
Proof.
  assert (H : select_best (total_usd ex_holdings ex_prices) purchase_amount
                [ex_row_MSFT; ex_row_AAPL]
              = Returns ("MSFT",
                         new_diff (total_usd ex_holdings ex_prices)
                           purchase_amount ex_row_MSFT,
                         Fin 60))
    by (vm_compute; reflexivity).
  split; [exact H|].
  apply (proj1 (C7_shares_to_buy _ _ _ ex_holdings ex_prices no_info _ _ _ H)).
  reflexivity.
Defined.

(** ** Sums of rationals *)


Lemma qsum_cons (a : Q) (l : list Q) : qsum (a :: l) = a + qsum l.
Proof. reflexivity. Qed.

Lemma fsum_Fin (l : list Q) : fsum (map Fin l) = Fin (qsum l).
Proof.
  unfold fsum. induction l as [|a l IH]; simpl; [reflexivity|].
  rewrite IH. reflexivity.
Qed.

Lemma qsum_scale (c T : Q) (l : list Q) :
  ~ T == 0 -> qsum (map (fun a => c * a / T) l) == c * qsum l / T.
Proof.
  intros HT. induction l as [|a l IH].
  - simpl. field. exact HT.
  - cbn [map]. rewrite !qsum_cons, IH. field. exact HT.
Qed.

Lemma qsum_nonneg (l : list Q) : (forall a, In a l -> 0 <= a) -> 0 <= qsum l.
Proof.
  induction l as [|a l IH]; intros H; [apply Qle_refl|].
  assert (0 <= a) by (apply H; now left).
  assert (0 <= qsum l) by (apply IH; intros; apply H; now right).
  rewrite qsum_cons. lra.
Qed.

Lemma qsum_pos (l : list Q) :
  (forall a, In a l -> 0 <= a) -> (exists a, In a l /\ 0 < a) -> 0 < qsum l.
Proof.
  induction l as [|a l IH]; intros H [b [Hb Hpos]]; [contradiction|].
  assert (Ha : 0 <= a) by (apply H; now left).
  assert (Hl : 0 <= qsum l) by (apply qsum_nonneg; intros; apply H; now right).
  rewrite qsum_cons. destruct Hb as [->|Hb]; [lra|].
  assert (0 < qsum l) by (apply IH; [intros; apply H; now right | now exists b]).
  lra.
Qed.

Lemma filter_map_comm {A B : Type} (p : B -> bool) (g : A -> B) (l : list A) :
  filter p (map g l) = map g (filter (fun a => p (g a)) l).
Proof.
  induction l as [|a l IH]; simpl; [reflexivity|].
  rewrite IH. destruct (p (g a)); reflexivity.
Qed.

(** ** Held values and weights *)


Section PricedHoldings.

Variable portfolio : Series Z.
Variable prices : Series float.

(** Share counts are not negative and every held ticker has a positive
    price. *)
Hypothesis priced :
  forall t s, get portfolio t = Some s ->
    (0 <= s)%Z /\ exists p, get prices t = Some (Fin p) /\ 0 < p.

Let value_of (t : string) : float :=
  fmul (cell (option_map of_int (get portfolio t))) (cell (get prices t)).

Lemma value_of_held (t : string) :
  held_label portfolio t = true ->
  value_of t = Fin (held_value portfolio prices t)
  /\ 0 <= held_value portfolio prices t.
Proof.
  unfold held_label, value_of, held_value.
  destruct (get portfolio t) as [s|] eqn:Hs; [|discriminate]. intros _.
  destruct (priced t s Hs) as (Hnn & p & Hp & Hpos). rewrite Hp. simpl.
  split; [reflexivity|].
  apply Qmult_le_0_compat; [|now apply Qlt_le_weak].
  change 0 with (inject_Z 0). now rewrite <- Zle_Qle.
Qed.

Lemma value_of_notnan (t : string) :
  notnan (value_of t) = held_label portfolio t.
Proof.
  destruct (held_label portfolio t) eqn:E.
  - destruct (value_of_held t E) as [-> _]. reflexivity.
  - unfold held_label in E. unfold value_of.
    destruct (get portfolio t); [discriminate | reflexivity].
Qed.

Lemma values_skipna (l : list string) :
  filter notnan (map value_of l)
  = map Fin (map (held_value portfolio prices)
                 (filter (held_label portfolio) l)).
Proof.
  induction l as [|t l IH]; simpl; [reflexivity|].
  rewrite value_of_notnan, IH.
  destruct (held_label portfolio t) eqn:E; [|reflexivity].
  simpl. destruct (value_of_held t E) as [-> _]. reflexivity.
Qed.


Lemma total_usd_held : total_usd portfolio prices = Fin (held_total portfolio prices).
Proof.
  unfold total_usd, df_values, sum_skipna. rewrite map_map. simpl.
  change (map _ (index_union (index portfolio) (index prices)))
    with (map value_of (index_union (index portfolio) (index prices))).
  rewrite values_skipna. apply fsum_Fin.
Qed.

Lemma held_total_nonneg : 0 <= held_total portfolio prices.
Proof.
  apply qsum_nonneg. intros a Ha. apply in_map_iff in Ha.
  destruct Ha as (t & <- & Ht). apply filter_In in Ht.
  now apply value_of_held.
Qed.

Lemma held_total_pos (t : string) (s : Z) :
  get portfolio t = Some s -> (0 < s)%Z -> 0 < held_total portfolio prices.
Proof.
  intros Hs Hpos. apply qsum_pos.
  - intros a Ha. apply in_map_iff in Ha.
    destruct Ha as (t' & <- & Ht'). apply filter_In in Ht'.
    now apply value_of_held.
  - exists (held_value portfolio prices t). split.
    + apply in_map, filter_In. split.
      * apply index_union_In. left. apply get_index. now exists s.
      * unfold held_label. now rewrite Hs.
    + unfold held_value. rewrite Hs.
      destruct (priced t s Hs) as (_ & p & -> & Hp).
      apply Qmult_lt_0_compat; [|exact Hp].
      change 0 with (inject_Z 0). now rewrite <- Zlt_Qlt.
Qed.

Lemma held_weight (t : string) :
  0 < held_total portfolio prices -> held_label portfolio t = true ->
  df_Weight (df_row_of portfolio prices t)
  = Fin (inject_Z 100 * held_value portfolio prices t
         / held_total portfolio prices).
Proof.
  intros Hpos Ht. unfold df_row_of. cbn [df_Weight].
  rewrite total_usd_held.
  change (fmul (cell (option_map of_int (get portfolio t)))
               (cell (get prices t))) with (value_of t).
  destruct (value_of_held t Ht) as [-> _]. simpl.
  apply Qgt_alt in Hpos. now rewrite Hpos.
Qed.

End PricedHoldings.

Lemma Permutation_filter {A : Type} (p : A -> bool) (l l' : list A) :
  Permutation l l' -> Permutation (filter p l) (filter p l').
Proof.
  induction 1 as [|x l l' _ IH|x y l|l l' l'' _ IH1 _ IH2]; simpl.
  - constructor.
  - destruct (p x); [now constructor | exact IH].
  - destruct (p x), (p y); try reflexivity. apply perm_swap.
  - now transitivity (filter p l').
Qed.

Lemma qsum_Permutation (l l' : list Q) : Permutation l l' -> qsum l == qsum l'.
Proof.
  induction 1 as [|x l l' _ IH|x y l|l l' l'' _ IH1 _ IH2].
  - reflexivity.
  - rewrite !qsum_cons, IH. reflexivity.
  - rewrite !qsum_cons. ring.
  - now rewrite IH1.
Qed.

Lemma held_labels_Permutation (portfolio : Series Z) (l l' : list string) :
  NoDup l -> NoDup l' ->
  (forall t, In t (index portfolio) -> In t l /\ In t l') ->
  Permutation (filter (held_label portfolio) l)
              (filter (held_label portfolio) l').
Proof.
  intros Hl Hl' Hin. apply NoDup_Permutation; try now apply NoDup_filter.
  intros t. rewrite !filter_In. unfold held_label.
  destruct (get portfolio t) as [s|] eqn:Hs.
  - assert (In t (index portfolio)) by (apply get_index; now exists s).
    destruct (Hin t); tauto.
  - split; intros [_ H]; discriminate.
Qed.

(** ** Weights add up to 100 *)

(** C3. When share counts are not negative, every held ticker has a
    positive price and at least one share is held, the actual weights
    100 * value / total of the held tickers add up to 100: in the frame
    [df] (lines 62-64) and, the index tickers being distinct, in every
    comparison table. *)
Theorem C3_weights_sum_to_100 (portfolio : Series Z) (prices : Series float) :
  (forall t s, get portfolio t = Some s ->
     (0 <= s)%Z /\ exists p, get prices t = Some (Fin p) /\ 0 < p) ->
  (exists t s, get portfolio t = Some s /\ (0 < s)%Z) ->
  (exists q,
     fsum (map df_Weight
             (filter (fun r => held_label portfolio (df_Ticker r))
                     (make_df portfolio prices))) = Fin q
     /\ q == 100)
  /\ (forall nasdaq_df out,
        NoDup (map tw_Ticker nasdaq_df) ->
        is_comparison nasdaq_df portfolio prices out ->
        exists q,
          fsum (map Weight
                  (filter (fun r => held_label portfolio (Ticker r)) out))
          = Fin q
          /\ q == 100).
Proof.
  intros Hpriced (t0 & s0 & Hs0 & Hpos0).
  pose proof (held_total_pos portfolio prices Hpriced t0 s0 Hs0 Hpos0) as HT.
  set (T := held_total portfolio prices) in *.
  set (g := fun t => inject_Z 100 * held_value portfolio prices t / T).
  set (idx := index_union (index portfolio) (index prices)).
  assert (Hsum : forall l,
             Permutation l (filter (held_label portfolio) idx) ->
             qsum (map g l) == 100).
  { intros l Hl.
    rewrite (qsum_Permutation _ _ (Permutation_map g Hl)).
    change (map g (filter (held_label portfolio) idx))
      with (map (fun t => (fun a => inject_Z 100 * a / T)
                            (held_value portfolio prices t))
                (filter (held_label portfolio) idx)).
    rewrite <- (map_map (held_value portfolio prices)
                        (fun a => inject_Z 100 * a / T)).
    rewrite qsum_scale by lra.
    change (qsum (map (held_value portfolio prices)
                      (filter (held_label portfolio) idx))) with T.
    field. lra. }
  split.
  - exists (qsum (map g (filter (held_label portfolio) idx))). split.
    + rewrite make_df_rows, filter_map_comm, map_map. cbn [df_Ticker df_row_of].
      rewrite <- fsum_Fin, map_map. f_equal. apply map_ext_in.
      intros t Ht. apply filter_In in Ht.
      now apply held_weight.
    + now apply Hsum.
  - intros nasdaq_df out Hnd Hout.
    set (held := fun r => held_label portfolio (Ticker r)).
    exists (qsum (map g (map Ticker (filter held out)))). split.
    + rewrite <- fsum_Fin, !map_map. f_equal. apply map_ext_in.
      intros r Hr. apply filter_In in Hr. destruct Hr as [Hr Hheld].
      apply (is_comparison_In _ _ _ _ r Hout) in Hr.
      destruct (comparison_rows_inv _ _ _ _ Hr) as (left & w & E & Hleft & _).
      unfold held in Hheld. rewrite E. cbn [Weight joined_row].
      destruct Hleft as [[-> _]|[_ [Hnin _]]].
      * cbn [option_map cell]. rewrite (held_weight _ _ Hpriced _ HT Hheld).
        reflexivity.
      * exfalso. apply Hnin. unfold held_label in Hheld.
        destruct (get portfolio (Ticker r)) as [s|] eqn:Hs; [|discriminate].
        apply get_index. now exists s.
    + apply Hsum.
      change (filter held out)
        with (filter (fun r => held_label portfolio (Ticker r)) out).
      rewrite <- filter_map_comm.
      transitivity (filter (held_label portfolio)
                      (index_union idx (map tw_Ticker nasdaq_df))).
      * apply Permutation_filter. destruct Hout as [Hp _].
        apply (Permutation_map Ticker) in Hp. unfold comparison_rows in Hp.
        rewrite (merge_outer_tickers _ _ Hnd), make_df_index in Hp.
        symmetry. exact Hp.
      * apply held_labels_Permutation; try apply index_union_NoDup.
        intros t Ht. unfold idx. rewrite !index_union_In. tauto.
Qed.

Lemma C3_weights_sum_to_100_witness :
  exists q,
    fsum (map df_Weight
            (filter (fun r => held_label ex_holdings (df_Ticker r))
                    (make_df ex_holdings ex_prices))) = Fin q
    /\ q == 100.
Proof.
  refine (proj1 (C3_weights_sum_to_100 ex_holdings ex_prices _ _)).
  - intros t s H. apply get_In in H. simpl in H.
    destruct H as [[= <- <-]|[[= <- <-]|[]]]; (split; [lia|]).
    + exists 100. split; reflexivity.
    + exists 200. split; reflexivity.
  - exists "AAPL", 10%Z. split; [reflexivity | lia].
Defined.

(** ** The portfolio dictionary *)

Lemma get_dict_set {A : Type} (d : Series A) (k t : string) (v : A) :
  get (dict_set d k v) t = if (k =? t)%string then Some v else get d t.
Proof.
  induction d as [|[k' v'] d IH]; simpl; [reflexivity|].
  destruct (String.eqb_spec k' k) as [->|Hne]; simpl.
  - destruct (String.eqb_spec k t); reflexivity.
  - rewrite IH. destruct (String.eqb_spec k' t) as [->|Hne'];
      [|reflexivity].
    destruct (String.eqb_spec k t) as [->|_]; [contradiction | reflexivity].
Qed.

Lemma dict_set_index {A : Type} (d : Series A) (k t : string) (v : A) :
  In t (index (dict_set d k v)) <-> In t (index d) \/ t = k.
Proof.
  rewrite !get_index. setoid_rewrite get_dict_set.
  destruct (String.eqb_spec k t) as [->|Hne].
  - split; [now right | intros _; now exists v].
  - split; [now left | intros [H | ->]; [exact H | contradiction]].
Qed.

Lemma dict_set_NoDup {A : Type} (d : Series A) (k : string) (v : A) :
  NoDup (index d) -> NoDup (index (dict_set d k v)).
Proof.
  induction d as [|[k' v'] d IH]; simpl; intros Hnd.
  - repeat constructor. simpl. tauto.
  - inversion Hnd as [|? ? Hnin Hnd']; subst.
    destruct (String.eqb_spec k' k) as [->|Hne]; simpl.
    + now constructor.
    + constructor; [|now apply IH].
      change (~ In k' (index (dict_set d k v))).
      rewrite dict_set_index. intros [H|H]; [contradiction | now subst].
Qed.

Section BuildPortfolio.

Variable slider : string -> Z.

Let step (portfolio : Series Z) (ticker : string) : Series Z :=
  let shares := slider ticker in
  if (0 <? shares)%Z then dict_set portfolio ticker shares else portfolio.

Lemma build_from_get (l : list string) (acc : Series Z) (t : string) :
  get (fold_left step l acc) t
  = if in_dec string_dec t l
    then (if (0 <? slider t)%Z then Some (slider t) else get acc t)
    else get acc t.
Proof.
  revert acc. induction l as [|k l IH]; intros acc; simpl; [reflexivity|].
  rewrite IH.
  assert (Hstep : get (step acc k) t
                  = if string_dec k t
                    then (if (0 <? slider t)%Z then Some (slider t)
                          else get acc t)
                    else get acc t).
  { unfold step. cbv zeta. destruct (string_dec k t) as [->|Hne].
    - destruct (0 <? slider t)%Z;
        [rewrite get_dict_set, String.eqb_refl|]; reflexivity.
    - destruct (0 <? slider k)%Z; [|reflexivity].
      rewrite get_dict_set.
      destruct (String.eqb_spec k t); [contradiction | reflexivity]. }
  rewrite Hstep.
  destruct (string_dec k t); destruct (in_dec string_dec t l);
    destruct (0 <? slider t)%Z; reflexivity.
Qed.

Lemma build_from_NoDup (l : list string) (acc : Series Z) :
  NoDup (index acc) -> NoDup (index (fold_left step l acc)).
Proof.
  revert acc. induction l as [|k l IH]; intros acc Hnd; simpl; [exact Hnd|].
  apply IH. unfold step. cbv zeta.
  destruct (0 <? slider k)%Z; [now apply dict_set_NoDup | exact Hnd].
Qed.

Lemma build_from_zero (l : list string) (acc : Series Z) :
  (forall t, In t l -> slider t = 0%Z) -> fold_left step l acc = acc.
Proof.
  revert acc. induction l as [|k l IH]; intros acc Hz; simpl; [reflexivity|].
  rewrite IH by (intros; apply Hz; now right).
  unfold step. cbv zeta. now rewrite (Hz k (or_introl eq_refl)).
Qed.

Lemma build_portfolio_get (top20_index : list string) (t : string) :
  get (build_portfolio top20_index slider) t
  = if in_dec string_dec t top20_index
    then (if (0 <? slider t)%Z then Some (slider t) else None)
    else None.
Proof. apply (build_from_get top20_index [] t). Qed.

End BuildPortfolio.

(** C10. The portfolio built from the sliders holds exactly the tickers of
    the list whose slider is strictly positive, each once and with the
    share count of its slider, so every held share count is at least 1;
    with all sliders at 0 it is the empty dictionary.  When it is not
    empty and every held ticker has a positive price, the total held
    value is strictly positive. *)
Theorem C10_portfolio_holds_positive_shares (top20_index : list string)
  (slider : string -> Z) (prices : Series float) :
  NoDup (index (build_portfolio top20_index slider))
  /\ (forall t, In t (index (build_portfolio top20_index slider))
                <-> In t top20_index /\ (0 < slider t)%Z)
  /\ (forall t s, In (t, s) (build_portfolio top20_index slider) ->
                  s = slider t /\ (1 <= s)%Z)
  /\ ((forall t, In t top20_index -> slider t = 0%Z) ->
      build_portfolio top20_index slider = [])
  /\ (build_portfolio top20_index slider <> [] ->
      (forall t, In t (index (build_portfolio top20_index slider)) ->
                 exists p, get prices t = Some (Fin p) /\ 0 < p) ->
      exists T, total_usd (build_portfolio top20_index slider) prices = Fin T
                /\ 0 < T).
Proof.
  set (portfolio := build_portfolio top20_index slider).
  assert (Hnd : NoDup (index portfolio))
    by (apply build_from_NoDup; constructor).
  assert (Hget : forall t s, get portfolio t = Some s ->
                   In t top20_index /\ s = slider t /\ (0 < s)%Z).
  { intros t s. unfold portfolio. rewrite build_portfolio_get.
    destruct (in_dec string_dec t top20_index) as [Hin|]; [|discriminate].
    destruct (0 <? slider t)%Z eqn:E; [|discriminate].
    intros [= <-]. apply Z.ltb_lt in E. auto. }
  split; [exact Hnd|]. split; [|split; [|split]].
  - intros t. rewrite get_index. split.
    + intros [s Hs]. destruct (Hget t s Hs) as (Hin & -> & Hpos). auto.
    + intros [Hin Hpos]. exists (slider t). unfold portfolio.
      rewrite build_portfolio_get.
      destruct (in_dec string_dec t top20_index); [|contradiction].
      apply Z.ltb_lt in Hpos. now rewrite Hpos.
  - intros t s Hin. apply (NoDup_get _ _ _ Hnd) in Hin.
    destruct (Hget t s Hin) as (_ & -> & Hpos). split; [reflexivity | lia].
  - intros Hz. apply build_from_zero. exact Hz.
  - intros Hne Hprices.
    assert (Hpriced : forall t s, get portfolio t = Some s ->
              (0 <= s)%Z /\ exists p, get prices t = Some (Fin p) /\ 0 < p).
    { intros t s Hs. destruct (Hget t s Hs) as (_ & _ & Hpos).
      split; [lia|]. apply Hprices. apply get_index. now exists s. }
    destruct portfolio as [|[t s] rest] eqn:E; [contradiction|].
    assert (Hs : get portfolio t = Some s)
      by (rewrite E; simpl; now rewrite String.eqb_refl).
    rewrite <- E in *.
    exists (held_total portfolio prices). split.
    + now apply total_usd_held.
    + apply (held_total_pos portfolio prices Hpriced t s Hs).
      now destruct (Hget t s Hs) as (_ & _ & Hpos).
Qed.

Lemma C10_portfolio_holds_positive_shares_witness :
  build_portfolio ["NVDA"; "MSFT"; "AAPL"; "TSLA"] (st_slider (fun _ => None))
  = [("NVDA", 17%Z); ("MSFT", 5%Z); ("AAPL", 11%Z)]
  /\ exists T,
       total_usd
         (build_portfolio ["NVDA"; "MSFT"; "AAPL"; "TSLA"]
            (st_slider (fun _ => None)))
         [("AAPL", of_int 100); ("MSFT", of_int 200); ("NVDA", of_int 50)]
       = Fin T
       /\ 0 < T.
Proof.
  split; [reflexivity|].
  refine (proj2 (proj2 (proj2 (proj2
           (C10_portfolio_holds_positive_shares
              ["NVDA"; "MSFT"; "AAPL"; "TSLA"] (st_slider (fun _ => None))
              [("AAPL", of_int 100); ("MSFT", of_int 200);
               ("NVDA", of_int 50)])))) _ _).
  - vm_compute. discriminate.
  - intros t Ht. vm_compute in Ht.
    destruct Ht as [<-|[<-|[<-|[]]]].
    + exists 50. split; reflexivity.
    + exists 200. split; reflexivity.
    + exists 100. split; reflexivity.
Defined.

(** * Further properties of the script *)

(** ** Dictionary assignment and the form *)

Lemma dict_set_fresh {A : Type} (d : Series A) (k : string) (v : A) :
  ~ In k (index d) -> dict_set d k v = (d ++ [(k, v)])%list.
Proof.
  induction d as [|[k' v'] d IH]; simpl; intros Hnin; [reflexivity|].
  destruct (String.eqb_spec k' k) as [->|Hne]; [tauto|].
  rewrite IH by tauto. reflexivity.
Qed.

Lemma dict_set_present {A : Type} (d : Series A) (k : string) (v : A) :
  In k (index d) -> index (dict_set d k v) = index d.
Proof.
  induction d as [|[k' v'] d IH]; simpl; intros Hin; [contradiction|].
  destruct (String.eqb_spec k' k) as [->|Hne]; simpl; [reflexivity|].
  rewrite IH; [reflexivity|]. destruct Hin; [contradiction | assumption].
Qed.

(** X1. Assignment then lookup on the dictionary: the key assigned reads
    back the value, every other key reads as before, a key already there
    keeps its place in the order of the keys and a new key goes last; no
    key is ever duplicated. *)
Theorem X1_dict_set_then_get {A : Type} (d : Series A) (k : string) (v : A) :
  get (dict_set d k v) k = Some v
  /\ (forall t, t <> k -> get (dict_set d k v) t = get d t)
  /\ (In k (index d) -> index (dict_set d k v) = index d)
  /\ (~ In k (index d) -> dict_set d k v = (d ++ [(k, v)])%list)
  /\ (NoDup (index d) -> NoDup (index (dict_set d k v))).
Proof.
  split; [|split; [|split; [|split]]].
  - now rewrite get_dict_set, String.eqb_refl.
  - intros t Hne. rewrite get_dict_set.
    destruct (String.eqb_spec k t) as [->|_]; [contradiction | reflexivity].
  - apply dict_set_present.
  - apply dict_set_fresh.
  - apply dict_set_NoDup.
Qed.

Lemma X1_dict_set_then_get_witness :
  In "MSFT" (index [("AAPL", 11%Z); ("MSFT", 5%Z)])
  /\ index (dict_set [("AAPL", 11%Z); ("MSFT", 5%Z)] "MSFT" 7%Z)
     = ["AAPL"; "MSFT"]
  /\ get (dict_set [("AAPL", 11%Z); ("MSFT", 5%Z)] "MSFT" 7%Z) "MSFT"
     = Some 7%Z.
Proof.
  assert (H : In "MSFT" (index [("AAPL", 11%Z); ("MSFT", 5%Z)]))
    by (simpl; auto).
  split; [exact H|]. split.
  - exact (proj1 (proj2 (proj2
             (X1_dict_set_then_get [("AAPL", 11%Z); ("MSFT", 5%Z)]
                "MSFT" 7%Z))) H).
  - exact (proj1 (X1_dict_set_then_get [("AAPL", 11%Z); ("MSFT", 5%Z)]
                    "MSFT" 7%Z)).
Defined.

Lemma build_from_append (slider : string -> Z) (l : list string)
  (acc : Series Z) :
  NoDup l -> (forall t, In t l -> ~ In t (index acc)) ->
  fold_left
    (fun portfolio ticker =>
       let shares := slider ticker in
       if (0 <? shares)%Z then dict_set portfolio ticker shares else portfolio)
    l acc
  = (acc ++ map (fun t => (t, slider t))
                (filter (fun t => (0 <? slider t)%Z) l))%list.
Proof.
  revert acc. induction l as [|k l IH]; intros acc Hnd Hfresh; simpl.
  - now rewrite app_nil_r.
  - inversion Hnd as [|? ? Hk Hnd']; subst.
    destruct (0 <? slider k)%Z eqn:E.
    + rewrite dict_set_fresh by (apply Hfresh; now left).
      rewrite IH; [now rewrite <- app_assoc | exact Hnd' |].
      intros t Ht. unfold index. rewrite map_app, in_app_iff. simpl.
      intros [H|[H|[]]].
      * apply (Hfresh t); [now right | exact H].
      * subst. contradiction.
    + apply IH; [exact Hnd'|]. intros t Ht. apply Hfresh. now right.
Qed.

(** X2. Over a list of distinct tickers the portfolio is, in the order of
    the list, the tickers whose slider is strictly positive, each with the
    share count of its slider. *)
Theorem X2_build_portfolio_in_list_order (top20_index : list string)
  (slider : string -> Z) :
  NoDup top20_index ->
  build_portfolio top20_index slider
  = map (fun t => (t, slider t))
        (filter (fun t => (0 <? slider t)%Z) top20_index).
Proof.
  intros Hnd. unfold build_portfolio.
  rewrite build_from_append; [reflexivity | exact Hnd | intros t _ []].
Qed.

Lemma X2_build_portfolio_in_list_order_witness :
  NoDup ["NVDA"; "TSLA"; "AAPL"]
  /\ build_portfolio ["NVDA"; "TSLA"; "AAPL"] (st_slider (fun _ => None))
     = [("NVDA", 17%Z); ("AAPL", 11%Z)].
Proof.
  assert (H : NoDup ["NVDA"; "TSLA"; "AAPL"]).
  { repeat constructor; simpl; intuition discriminate. }
  split; [exact H|].
  rewrite (X2_build_portfolio_in_list_order _ (st_slider (fun _ => None)) H).
  reflexivity.
Defined.

Lemma default_portfolio_range (t : string) (v : Z) :
  get default_portfolio t = Some v -> (1 <= v <= 50)%Z.
Proof.
  intros H. apply get_In in H. unfold default_portfolio in H. simpl in H.
  repeat (destruct H as [H|H]; [injection H as _ <-; lia|]).
  contradiction.
Qed.

Lemma st_slider_range (choice : string -> option Z) (t : string) :
  (forall t v, choice t = Some v -> (0 <= v <= 50)%Z) ->
  (0 <= st_slider choice t <= 50)%Z.
Proof.
  intros Hc. unfold st_slider.
  destruct (choice t) as [v|] eqn:E; [now apply (Hc t)|].
  destruct (get default_portfolio t) as [v|] eqn:D; [|lia].
  apply default_portfolio_range in D. lia.
Qed.

(** X3. Whatever the index and the positions of the sliders within their
    range 0..50, the portfolio of the form has at most twenty entries,
    all among the first twenty index tickers, each with 1 to 50 shares. *)
Theorem X3_form_portfolio_bounds (nasdaq_index : list string)
  (choice : string -> option Z) :
  (forall t v, choice t = Some v -> (0 <= v <= 50)%Z) ->
  (List.length (portfolio_of_form nasdaq_index choice) <= 20)%nat
  /\ (forall t s, In (t, s) (portfolio_of_form nasdaq_index choice) ->
        In t (top20 nasdaq_index) /\ (1 <= s <= 50)%Z).
Proof.
  intros Hc. unfold portfolio_of_form.
  set (l := top20 nasdaq_index). set (sl := st_slider choice).
  assert (Hget : forall t s, get (build_portfolio l sl) t = Some s ->
                   In t l /\ s = sl t /\ (0 < s)%Z).
  { intros t s. rewrite build_portfolio_get.
    destruct (in_dec string_dec t l) as [Hin|]; [|discriminate].
    destruct (0 <? sl t)%Z eqn:E; [|discriminate].
    intros [= <-]. apply Z.ltb_lt in E. auto. }
  assert (Hnd : NoDup (index (build_portfolio l sl)))
    by (apply build_from_NoDup; constructor).
  split.
  - transitivity (List.length l).
    + rewrite <- (length_map fst). apply NoDup_incl_length; [exact Hnd|].
      intros t Ht. apply get_index in Ht. destruct Ht as [s Hs].
      now destruct (Hget t s Hs).
    + unfold l, top20. apply firstn_le_length.
  - intros t s Hin. apply (NoDup_get _ _ _ Hnd) in Hin.
    destruct (Hget t s Hin) as (Ht & -> & Hpos). split; [exact Ht|].
    pose proof (st_slider_range choice t Hc). unfold sl in *. lia.
Qed.

Lemma X3_form_portfolio_bounds_witness :
  (List.length (portfolio_of_form ["NVDA"; "MSFT"; "AAPL"] (fun _ => Some 50%Z))
   <= 20)%nat.
Proof.
  refine (proj1 (X3_form_portfolio_bounds ["NVDA"; "MSFT"; "AAPL"]
                   (fun _ => Some 50%Z) _)).
  intros t v [= <-]. lia.
Defined.

(** X4. With every slider left alone the portfolio holds exactly the
    default share counts of the tickers among the first twenty of the
    index: a default ticker further down the index, or absent from it, is
    not held. *)
Theorem X4_untouched_form_holds_defaults (nasdaq_index : list string)
  (t : string) :
  get (portfolio_of_form nasdaq_index (fun _ => None)) t
  = if in_dec string_dec t (top20 nasdaq_index)
    then get default_portfolio t else None.
Proof.
  unfold portfolio_of_form. rewrite build_portfolio_get.
  destruct (in_dec string_dec t (top20 nasdaq_index)); [|reflexivity].
  unfold st_slider.
  destruct (get default_portfolio t) as [v|] eqn:D; [|reflexivity].
  apply default_portfolio_range in D.
  destruct (0 <? v)%Z eqn:E; [reflexivity|]. apply Z.ltb_ge in E. lia.
Qed.

(** ** The frame [df] and the comparison *)

(** X5. The frame [df] has exactly one row per ticker that is held or
    priced; in each row the value is the product of the shares and the
    price, and the shares are NaN exactly for a ticker that is not held. *)
Theorem X5_df_one_row_per_label (portfolio : Series Z) (prices : Series float) :
  NoDup (map df_Ticker (make_df portfolio prices))
  /\ (forall t, In t (map df_Ticker (make_df portfolio prices))
                <-> In t (index portfolio) \/ In t (index prices))
  /\ (forall r, In r (make_df portfolio prices) ->
        df_Value r = fmul (df_Shares r) (df_Price r)
        /\ (isnan (df_Shares r) = true
            <-> ~ In (df_Ticker r) (index portfolio))).
Proof.
  rewrite make_df_index. split; [apply index_union_NoDup|].
  split; [intros t; apply index_union_In|].
  intros r Hr. rewrite make_df_rows in Hr. apply in_map_iff in Hr.
  destruct Hr as (t & <- & _). split; [reflexivity|]. simpl.
  rewrite <- get_None. destruct (get portfolio t); simpl; split; congruence.
Qed.

Lemma X5_df_one_row_per_label_witness :
  In "CSCO" (map df_Ticker (make_df [("CSCO", 23%Z)] [("AAPL", of_int 100)]))
  /\ In "AAPL" (map df_Ticker (make_df [("CSCO", 23%Z)] [("AAPL", of_int 100)])).
Proof.
  pose proof (proj1 (proj2 (X5_df_one_row_per_label
                              [("CSCO", 23%Z)] [("AAPL", of_int 100)]))) as H.
  split; apply H; simpl; auto.
Defined.

Lemma qsum_member_le (l : list Q) (a : Q) :
  (forall x, In x l -> 0 <= x) -> In a l -> a <= qsum l.
Proof.
  induction l as [|b l IH]; intros Hnn Hin; [contradiction|].
  destruct Hin as [Ha|Ha]; rewrite qsum_cons.
  - subst. assert (0 <= qsum l)
      by (apply qsum_nonneg; intros; apply Hnn; now right). lra.
  - assert (0 <= b) by (apply Hnn; now left).
    assert (a <= qsum l) by (apply IH; [intros; apply Hnn; now right | exact Ha]).
    lra.
Qed.

Lemma held_labels_of_index (portfolio : Series Z) (prices : Series float) :
  NoDup (index portfolio) ->
  Permutation (filter (held_label portfolio)
                 (index_union (index portfolio) (index prices)))
              (index portfolio).
Proof.
  intros Hnd. apply NoDup_Permutation; [|exact Hnd|].
  - apply NoDup_filter, index_union_NoDup.
  - intros t. rewrite filter_In, index_union_In. unfold held_label.
    destruct (get portfolio t) as [s|] eqn:Hs.
    + assert (In t (index portfolio)) by (apply get_index; now exists s).
      tauto.
    + apply get_None in Hs. split; [intros [_ H]; discriminate | tauto].
Qed.

(** X6. When the portfolio is a dictionary (no key twice), share counts
    are not negative and every held ticker has a positive price, the
    total value is the sum over the held tickers of shares times price;
    prices of tickers that are not held do not enter it. *)
Theorem X6_total_is_sum_of_positions (portfolio : Series Z)
  (prices : Series float) :
  NoDup (index portfolio) ->
  (forall t s, get portfolio t = Some s ->
     (0 <= s)%Z /\ exists p, get prices t = Some (Fin p) /\ 0 < p) ->
  exists T,
    total_usd portfolio prices = Fin T
    /\ T == qsum (map (held_value portfolio prices) (index portfolio))
    /\ 0 <= T.
Proof.
  intros Hnd Hpriced. exists (held_total portfolio prices).
  split; [now apply total_usd_held|]. split.
  - unfold held_total. apply qsum_Permutation, Permutation_map.
    now apply held_labels_of_index.
  - now apply held_total_nonneg.
Qed.

Lemma X6_total_is_sum_of_positions_witness :
  exists T,
    total_usd ex_holdings (("TSLA", of_int 300) :: ex_prices) = Fin T
    /\ T == 2000.
Proof.
  destruct (X6_total_is_sum_of_positions ex_holdings
              (("TSLA", of_int 300) :: ex_prices)) as (T & HT & Hsum & _).
  - repeat constructor; simpl; intuition discriminate.
  - intros t s H. apply get_In in H. simpl in H.
    destruct H as [[= <- <-]|[[= <- <-]|[]]]; (split; [lia|]).
    + exists 100. split; reflexivity.
    + exists 200. split; reflexivity.
  - exists T. split; [exact HT|]. rewrite Hsum. vm_compute. reflexivity.
Defined.

(** The weight of a single holding of 23 shares at 0.03, and the projected
    weight of a single holding of 48 shares at 1.32 after a purchase of
    1250, both 100 as real numbers, are 100.00000000000001 in doubles. *)
Lemma rounding_can_exceed_100 :
  (let value := rmul round_b64 (of_int 23) (Fin (round_b64 (3 # 100))) in
   rdiv round_b64 (rmul round_b64 (of_int 100) value) value
   = Fin (7036874417766401 # 70368744177664))
  /\ (let value := rmul round_b64 (of_int 48) (Fin (round_b64 (132 # 100))) in
      let new_value := radd round_b64 value purchase_amount in
      rdiv round_b64 (rmul round_b64 (of_int 100) new_value) new_value
      = Fin (7036874417766401 # 70368744177664))
  /\ 100 < 7036874417766401 # 70368744177664.
Proof. repeat split; vm_compute; reflexivity. Qed.

(** X7. In exact arithmetic, under the same conditions and with at least
    one share held, every held ticker has a weight between 0 and 100 in
    [df]; every ticker of [df] that is not held has the weight NaN.  (In
    doubles the bound 100 can be passed by a rounding error, see
    [rounding_can_exceed_100].) *)
Theorem X7_weight_between_0_and_100 (portfolio : Series Z)
  (prices : Series float) :
  (forall t s, get portfolio t = Some s ->
     (0 <= s)%Z /\ exists p, get prices t = Some (Fin p) /\ 0 < p) ->
  (exists t s, get portfolio t = Some s /\ (0 < s)%Z) ->
  forall r, In r (make_df portfolio prices) ->
    (held_label portfolio (df_Ticker r) = true ->
     exists w, df_Weight r = Fin w /\ 0 <= w /\ w <= 100)
    /\ (held_label portfolio (df_Ticker r) = false -> df_Weight r = NaN).
Proof.
  intros Hpriced (t0 & s0 & Hs0 & Hpos0) r Hr.
  pose proof (held_total_pos portfolio prices Hpriced t0 s0 Hs0 Hpos0) as HT.
  rewrite make_df_rows in Hr. apply in_map_iff in Hr.
  destruct Hr as (t & <- & Ht). cbn [df_Ticker df_row_of]. split.
  - intros Hheld. rewrite (held_weight _ _ Hpriced t HT Hheld).
    eexists. split; [reflexivity|].
    destruct (value_of_held portfolio prices Hpriced t Hheld) as [_ Hnn].
    assert (Hle : held_value portfolio prices t <= held_total portfolio prices).
    { apply qsum_member_le.
      - intros x Hx. apply in_map_iff in Hx. destruct Hx as (t' & <- & Ht').
        apply filter_In in Ht'.
        now apply (value_of_held portfolio prices Hpriced).
      - apply in_map, filter_In. split; assumption. }
    set (T := held_total portfolio prices) in *.
    set (a := held_value portfolio prices t) in *.
    change (inject_Z 100) with 100. split.
    + apply Qle_shift_div_l; [exact HT|]. nra.
    + apply Qle_shift_div_r; [exact HT|]. nra.
  - unfold held_label, df_row_of. simpl.
    destruct (get portfolio t); [discriminate | reflexivity].
Qed.

Lemma X7_weight_between_0_and_100_witness :
  exists w,
    df_Weight (df_row_of ex_holdings ex_prices "AAPL") = Fin w
    /\ 0 <= w /\ w <= 100.
Proof.
  refine (proj1 (X7_weight_between_0_and_100 ex_holdings ex_prices _ _
                   (df_row_of ex_holdings ex_prices "AAPL") _) _).
  - intros t s H. apply get_In in H. simpl in H.
    destruct H as [[= <- <-]|[[= <- <-]|[]]]; (split; [lia|]).
    + exists 100. split; reflexivity.
    + exists 200. split; reflexivity.
  - exists "AAPL", 10%Z. split; [reflexivity | lia].
  - rewrite make_df_rows. apply in_map. vm_compute. auto.
  - reflexivity.
Defined.

(** X8. No NaN reaches the comparison: in every row of every comparison
    table the shares, the price, the value, the actual weight and the
    target weight are numbers or infinities, and the difference is the
    actual weight minus the target weight. *)
Theorem X8_comparison_has_no_nan (nasdaq_df : list TargetWeight)
  (portfolio : Series Z) (prices : Series float) (out : list Row) :
  is_comparison nasdaq_df portfolio prices out ->
  forall r, In r out ->
    isnan (Shares r) = false /\ isnan (Price r) = false
    /\ isnan (Value r) = false /\ isnan (Weight r) = false
    /\ isnan (Nasdaq100_Weight r) = false
    /\ Difference r = fsub (Weight r) (Nasdaq100_Weight r).
Proof.
  intros Hout r Hr. apply (is_comparison_In _ _ _ _ r Hout) in Hr.
  destruct (comparison_rows_inv _ _ _ _ Hr) as (left & w & -> & _ & _).
  simpl. repeat split; apply fillna0_notnan.
Qed.

Lemma X8_comparison_has_no_nan_witness :
  Forall (fun r => isnan (Value r) = false)
         (computeComparison [tw "MSFT" 60] [("AAPL", 10%Z)] []).
Proof.
  apply Forall_forall. intros r Hr.
  refine (proj1 (proj2 (proj2
           (X8_comparison_has_no_nan [tw "MSFT" 60] [("AAPL", 10%Z)] []
              _ _ r Hr)))).
  split; [apply sort_values_Permutation | vm_compute; repeat constructor].
Defined.

Lemma weight_q_filter (portfolio : Series Z) (prices : Series float)
  (l : list string) :
  qsum (map (weight_q portfolio prices) l)
  == qsum (map (weight_q portfolio prices) (filter (held_label portfolio) l)).
Proof.
  induction l as [|t l IH]; [reflexivity|]. cbn [map filter].
  destruct (held_label portfolio t) eqn:E.
  - cbn [map]. rewrite !qsum_cons, IH. reflexivity.
  - rewrite qsum_cons, IH. unfold weight_q at 1. rewrite E. ring.
Qed.

Lemma weight_q_total (portfolio : Series Z) (prices : Series float) :
  0 < held_total portfolio prices ->
  qsum (map (weight_q portfolio prices)
            (filter (held_label portfolio)
                    (index_union (index portfolio) (index prices))))
  == 100.
Proof.
  intros HT.
  set (hl := filter (held_label portfolio)
                    (index_union (index portfolio) (index prices))).
  assert (E : map (weight_q portfolio prices) hl
              = map (fun a => inject_Z 100 * a / held_total portfolio prices)
                    (map (held_value portfolio prices) hl)).
  { rewrite map_map. apply map_ext_in. intros t Ht. apply filter_In in Ht.
    unfold weight_q. now rewrite (proj2 Ht). }
  rewrite E, qsum_scale by lra.
  change (qsum (map (held_value portfolio prices) hl))
    with (held_total portfolio prices).
  field. lra.
Qed.

(** X9. Under the conditions of X7 and with distinct index tickers, the
    actual weights of all the rows of a comparison table add up to 100:
    the rows of tickers that are not held contribute exactly 0. *)
Theorem X9_all_rows_weights_sum_to_100 (nasdaq_df : list TargetWeight)
  (portfolio : Series Z) (prices : Series float) (out : list Row) :
  (forall t s, get portfolio t = Some s ->
     (0 <= s)%Z /\ exists p, get prices t = Some (Fin p) /\ 0 < p) ->
  (exists t s, get portfolio t = Some s /\ (0 < s)%Z) ->
  NoDup (map tw_Ticker nasdaq_df) ->
  is_comparison nasdaq_df portfolio prices out ->
  (forall r, In r out -> held_label portfolio (Ticker r) = false ->
             Weight r = Fin 0)
  /\ exists q, fsum (map Weight out) = Fin q /\ q == 100.
Proof.
  intros Hpriced (t0 & s0 & Hs0 & Hpos0) Hnd Hout.
  pose proof (held_total_pos portfolio prices Hpriced t0 s0 Hs0 Hpos0) as HT.
  assert (Hw : forall r, In r out ->
                 Weight r = Fin (weight_q portfolio prices (Ticker r))).
  { intros r Hr. apply (is_comparison_In _ _ _ _ r Hout) in Hr.
    destruct (comparison_rows_inv _ _ _ _ Hr) as (left & w & E & Hleft & _).
    rewrite E. cbn [Weight joined_row Ticker]. unfold weight_q.
    destruct (held_label portfolio (Ticker r)) eqn:Hheld.
    - destruct Hleft as [[-> _]|[_ [Hnin _]]].
      + cbn [option_map cell]. rewrite (held_weight _ _ Hpriced _ HT Hheld).
        reflexivity.
      + exfalso. apply Hnin. unfold held_label in Hheld.
        destruct (get portfolio (Ticker r)) as [s|] eqn:Hs; [|discriminate].
        apply get_index. now exists s.
    - destruct Hleft as [[-> _]|[-> _]]; [|reflexivity].
      unfold held_label in Hheld. unfold df_row_of. simpl.
      destruct (get portfolio (Ticker r)); [discriminate | reflexivity]. }
  split.
  - intros r Hr Hheld. rewrite (Hw r Hr). unfold weight_q. now rewrite Hheld.
  - exists (qsum (map (weight_q portfolio prices) (map Ticker out))). split.
    + rewrite <- fsum_Fin, !map_map. f_equal. apply map_ext_in. exact Hw.
    + set (idx := index_union (index portfolio) (index prices)).
      assert (Hp : Permutation (map Ticker out)
                     (index_union idx (map tw_Ticker nasdaq_df))).
      { destruct Hout as [Hp _]. apply (Permutation_map Ticker) in Hp.
        unfold comparison_rows in Hp.
        rewrite (merge_outer_tickers _ _ Hnd), make_df_index in Hp.
        symmetry. exact Hp. }
      rewrite (qsum_Permutation _ _
                 (Permutation_map (weight_q portfolio prices) Hp)).
      rewrite weight_q_filter.
      assert (Hh : Permutation
                (filter (held_label portfolio)
                   (index_union idx (map tw_Ticker nasdaq_df)))
                (filter (held_label portfolio) idx)).
      { apply held_labels_Permutation; try apply index_union_NoDup.
        intros t Ht. unfold idx. rewrite !index_union_In. tauto. }
      rewrite (qsum_Permutation _ _
                 (Permutation_map (weight_q portfolio prices) Hh)).
      now apply weight_q_total.
Qed.

Lemma X9_all_rows_weights_sum_to_100_witness :
  exists q,
    fsum (map Weight
            (computeComparison (tw "TSLA" 3 :: ex_targets) ex_holdings
               ex_prices)) = Fin q
    /\ q == 100.
Proof.
  refine (proj2 (X9_all_rows_weights_sum_to_100 (tw "TSLA" 3 :: ex_targets)
                   ex_holdings ex_prices _ _ _ _ _)).
  - intros t s H. apply get_In in H. simpl in H.
    destruct H as [[= <- <-]|[[= <- <-]|[]]]; (split; [lia|]).
    + exists 100. split; reflexivity.
    + exists 200. split; reflexivity.
  - exists "AAPL", 10%Z. split; [reflexivity | lia].
  - repeat constructor; simpl; intuition discriminate.
  - split; [apply sort_values_Permutation | vm_compute; repeat constructor].
Defined.

(** ** The suggestion, beyond the choice of the row *)

Lemma first_min_In (l : list suggestion) (s : suggestion) :
  first_min l = Some s -> In s l.
Proof.
  revert s. induction l as [|a l IH]; intros s; simpl; [discriminate|].
  destruct (first_min l) as [h|].
  - destruct (flt (gap_of h) (gap_of a)); intros [= <-]; auto.
  - intros [= <-]. now left.
Qed.

Lemma new_diff_not_negative (total purchase : float) (row : Row) :
  flt (new_diff total purchase row) (Fin 0) = false.
Proof.
  unfold new_diff. destruct (fsub _ _) as [q| | |]; simpl; try reflexivity.
  pose proof (proj1 (Qle_alt 0 (Qabs q)) (Qabs_nonneg q)) as H.
  rewrite <- (Qcompare_antisym 0 (Qabs q)).
  destruct (0 ?= Qabs q) eqn:E; simpl; congruence.
Qed.

(** X10. Whatever the rows, also with gaps that are NaN: a suggestion
    that is returned names the ticker, the gap and the target weight of
    one of the rows given, and its projected gap is never negative.
    [IndexError] is raised exactly when there is no row. *)
Theorem X10_suggestion_is_one_of_the_rows (rows : list Row) (total : float)
  (df : list DfRow) (info : string -> option quote) (purchase : float) :
  (forall r,
      recommendPurchase rows total df info purchase = Returns r ->
      (exists row, In row rows /\ best_ticker r = Ticker row
                   /\ projected_gap r = new_diff total purchase row
                   /\ target_weight r = Nasdaq100_Weight row)
      /\ flt (projected_gap r) (Fin 0) = false)
  /\ (recommendPurchase rows total df info purchase = Raises IndexError
      <-> rows = []).
Proof.
  unfold recommendPurchase. rewrite select_best_first_min.
  destruct (first_min (suggestions total purchase rows)) as [[[t g] w]|] eqn:E.
  - assert (Hrow : exists row, In row rows /\ t = Ticker row
                     /\ g = new_diff total purchase row
                     /\ w = Nasdaq100_Weight row).
    { apply first_min_In in E. unfold suggestions in E.
      apply in_map_iff in E. destruct E as (row & [= <- <- <-] & Hrow).
      now exists row. }
    assert (Hne : rows <> []).
    { destruct Hrow as (row & Hin & _). intros ->. contradiction. }
    split.
    + intros r. destruct (price_of df info t) as [price|e] eqn:P;
        [|discriminate].
      destruct (truediv purchase price) as [shares|e] eqn:D; [|discriminate].
      intros [= <-]. cbn [best_ticker projected_gap target_weight].
      split; [exact Hrow|].
      destruct Hrow as (row & _ & _ & -> & _). apply new_diff_not_negative.
    + split; [|contradiction].
      destruct (price_of df info t) as [price|e] eqn:P.
      * destruct (truediv purchase price) as [shares|e] eqn:D;
          [discriminate|].
        intros [= ->]. destruct price as [x|x|]; simpl in D;
          try discriminate.
        destruct (is_zero x); discriminate.
      * intros [= ->]. unfold price_of in P.
        destruct (find _ df); [discriminate|].
        destruct (info t) as [[|x]|]; discriminate.
  - apply first_min_nil in E. unfold suggestions in E.
    apply map_eq_nil in E. split; [discriminate|]. split; [now intros _|].
    reflexivity.
Qed.

Lemma X10_suggestion_is_one_of_the_rows_witness :
  recommendPurchase [] (Fin 0) [] no_info purchase_amount = Raises IndexError.
Proof.
  apply (proj2 (X10_suggestion_is_one_of_the_rows [] (Fin 0) [] no_info
                  purchase_amount)).
  reflexivity.
Defined.

Lemma insert_by_gap_Permutation (s : suggestion) (l : list suggestion) :
  Permutation (s :: l) (insert_by_gap s l).
Proof.
  induction l as [|s' l IH]; simpl; [reflexivity|].
  destruct (flt (gap_of s') (gap_of s)); [|reflexivity].
  rewrite perm_swap. now constructor.
Qed.

Lemma sort_by_gap_Permutation (l : list suggestion) :
  Permutation l (sort_by_gap l).
Proof.
  induction l as [|s l IH]; simpl; [constructor|].
  rewrite <- insert_by_gap_Permutation. now constructor.
Qed.

Lemma insert_by_gap_sorted (s : suggestion) (l : list suggestion) :
  isnan (gap_of s) = false ->
  Forall (fun x => isnan (gap_of x) = false) l ->
  StronglySorted ascending_gap l ->
  StronglySorted ascending_gap (insert_by_gap s l).
Proof.
  intros Hs Hl Hsorted. induction Hsorted as [|s' l Hsorted IH Hall]; simpl.
  - repeat constructor.
  - inversion Hl as [|? ? Hs' Hl']; subst.
    destruct (flt (gap_of s') (gap_of s)) eqn:E.
    + constructor; [now apply IH|].
      apply (Permutation_Forall (insert_by_gap_Permutation s l)).
      constructor; [now apply flt_fle | exact Hall].
    + pose proof (not_flt_fle _ _ Hs' Hs E) as Hle.
      constructor; [now constructor|]. constructor; [exact Hle|].
      eapply Forall_impl; [|exact Hall]. unfold ascending_gap. intros x Hx.
      eapply fle_trans; [exact Hle | exact Hx].
Qed.

(** X11. Line 119 keeps the suggestions, whatever their gaps; when no gap
    is NaN it leaves them in ascending order of the gap. *)
Theorem X11_suggestions_sorted_by_gap (l : list suggestion) :
  Permutation l (sort_by_gap l)
  /\ ((forall x, In x l -> isnan (gap_of x) = false) ->
      StronglySorted ascending_gap (sort_by_gap l)).
Proof.
  split; [apply sort_by_gap_Permutation|].
  induction l as [|s l IH]; intros Hnan; simpl; [constructor|].
  apply insert_by_gap_sorted.
  - apply Hnan. now left.
  - apply Forall_forall. intros x Hx. apply Hnan. right.
    apply (Permutation_in _ (Permutation_sym (sort_by_gap_Permutation l))).
    exact Hx.
  - apply IH. intros x Hx. apply Hnan. now right.
Qed.

Lemma X11_suggestions_sorted_by_gap_witness :
  StronglySorted ascending_gap
    (sort_by_gap [("AAPL", Fin 29, Fin 40); ("MSFT", Fin 9, Fin 60);
                  ("TSLA", PInf, Fin 3)]).
Proof.
  apply (proj2 (X11_suggestions_sorted_by_gap
                  [("AAPL", Fin 29, Fin 40); ("MSFT", Fin 9, Fin 60);
                   ("TSLA", PInf, Fin 3)])).
  intros x [<-|[<-|[<-|[]]]]; reflexivity.
Defined.

(** X12. The suggested share count times the price is the purchase amount:
    whenever a suggestion is returned for a finite purchase amount and the
    price found for its ticker is a number other than 0. *)
Theorem X12_shares_times_price_is_amount (rows : list Row) (total : float)
  (df : list DfRow) (info : string -> option quote) (r : Recommendation)
  (price : price_obj) (P p : Q) :
  recommendPurchase rows total df info (Fin P) = Returns r ->
  price_of df info (best_ticker r) = Returns price ->
  price_number price = Some (Fin p) ->
  ~ p == 0 ->
  feq (fmul (shares_to_buy r) (Fin p)) (Fin P).
Proof.
  unfold recommendPurchase.
  destruct (select_best total (Fin P) rows) as [[[t g] w]|e]; [|discriminate].
  destruct (price_of df info t) as [price'|e] eqn:E; [|discriminate].
  destruct (truediv (Fin P) price') as [shares|e] eqn:D; [|discriminate].
  intros [= <-]. cbn [best_ticker shares_to_buy]. rewrite E.
  intros [= <-] Hnum Hp.
  assert (Hshares : shares = fdiv (Fin P) (Fin p)).
  { destruct price' as [x|x|]; simpl in Hnum; try discriminate;
      injection Hnum as ->; unfold truediv, is_zero in D.
    - now injection D as <-.
    - destruct (Qcompare_spec p 0) as [H|H|H]; [contradiction| |];
        now injection D as <-. }
  rewrite Hshares. simpl.
  destruct (Qcompare_spec p 0) as [H|H|H]; [contradiction| |]; simpl;
    field; exact Hp.
Qed.

Lemma X12_shares_times_price_is_amount_witness :
  exists r,
    recommendPurchase [ex_row_MSFT; ex_row_AAPL]
      (total_usd ex_holdings ex_prices) (make_df ex_holdings ex_prices)
      no_info (Fin 1250) = Returns r
    /\ feq (fmul (shares_to_buy r) (Fin 200)) (Fin 1250).
Proof.
  eexists. split; [vm_compute; reflexivity|].
  eapply (X12_shares_times_price_is_amount [ex_row_MSFT; ex_row_AAPL]
            (total_usd ex_holdings ex_prices) (make_df ex_holdings ex_prices)
            no_info _ (Float64 (of_int 200)) 1250 200).
  - vm_compute. reflexivity.
  - vm_compute. reflexivity.
  - reflexivity.
  - vm_compute. discriminate.
Defined.

(** ** Nothing held *)

Lemma total_usd_nothing_held (prices : Series float) :
  total_usd [] prices = Fin 0.
Proof.
  unfold total_usd, df_values, sum_skipna. rewrite map_map. simpl.
  induction (index_union [] (index prices)) as [|t l IH]; simpl;
    [reflexivity | exact IH].
Qed.

(** The first row is chosen when no gap is NaN and no row has a smaller
    gap. *)
Lemma select_best_head (total purchase : float) (r0 : Row) (rest : list Row) :
  (forall r, In r (r0 :: rest) -> isnan (new_diff total purchase r) = false) ->
  (forall r, In r rest ->
     fle (new_diff total purchase r0) (new_diff total purchase r) = true) ->
  select_best total purchase (r0 :: rest)
  = Returns (Ticker r0, new_diff total purchase r0, Nasdaq100_Weight r0).
Proof.
  intros Hnan Hmin. rewrite select_best_first_min.
  set (f := fun row => (Ticker row, new_diff total purchase row,
                        Nasdaq100_Weight row)).
  change (suggestions total purchase (r0 :: rest)) with (map f (r0 :: rest)).
  destruct (first_min (map f (r0 :: rest))) as [s|] eqn:E.
  2:{ apply first_min_nil in E. discriminate. }
  destruct (first_min_spec (map f (r0 :: rest)) s) as (i & Hi & Hle & Hlt);
    [|exact E|].
  { intros x Hx. apply in_map_iff in Hx. destruct Hx as (r & <- & Hr).
    now apply Hnan. }
  destruct i as [|i]; [simpl in Hi; now injection Hi as <-|].
  exfalso.
  assert (Hs : flt (gap_of s) (gap_of (f r0)) = true)
    by (apply (Hlt 0%nat); [lia | reflexivity]).
  apply flt_irrefl_fle in Hs.
  apply nth_error_In in Hi. apply in_map_iff in Hi.
  destruct Hi as (r & <- & Hr).
  change (fle (new_diff total purchase r0) (new_diff total purchase r) = false)
    in Hs.
  destruct Hr as [<-|Hr].
  - rewrite fle_refl in Hs; [discriminate | apply Hnan; now left].
  - rewrite (Hmin r Hr) in Hs. discriminate.
Qed.

(** X13. With nothing held, a positive purchase amount and index weights
    that are numbers of at most 100, every row of the comparison has the
    value 0 and a projected weight of 100, and the ticker suggested is
    the first row of the table, a ticker of largest target weight. *)
Theorem X13_nothing_held_suggests_top_row (nasdaq_df : list TargetWeight)
  (prices : Series float) (r0 : Row) (rest : list Row) (P : Q) :
  (forall n, In n nasdaq_df -> exists w, tw_Weight n = Fin w /\ w <= 100) ->
  0 < P ->
  is_comparison nasdaq_df [] prices (r0 :: rest) ->
  select_best (total_usd [] prices) (Fin P) (r0 :: rest)
  = Returns (Ticker r0, new_diff (total_usd [] prices) (Fin P) r0,
             Nasdaq100_Weight r0)
  /\ (forall r, In r (r0 :: rest) ->
        Value r = Fin 0
        /\ feq (new_weight (total_usd [] prices) (Fin P) r) (Fin 100)
        /\ fle (Nasdaq100_Weight r) (Nasdaq100_Weight r0) = true).
Proof.
  intros Htw HP Hout. rewrite total_usd_nothing_held.
  assert (Hrow : forall r, In r (r0 :: rest) ->
            Value r = Fin 0
            /\ exists w, Nasdaq100_Weight r = Fin w /\ w <= 100).
  { intros r Hr. apply (is_comparison_In _ _ _ _ r Hout) in Hr.
    destruct (comparison_rows_inv _ _ _ _ Hr) as (left & w & -> & Hleft & Hw).
    simpl. split.
    - destruct Hleft as [[-> _]|[-> _]]; reflexivity.
    - destruct Hw as [[-> _]|(n & Hn & _ & ->)].
      + exists 0. split; [reflexivity | lra].
      + destruct (Htw n Hn) as (w' & -> & Hw'). exists w'. now split. }
  assert (Hgap : forall r, In r (r0 :: rest) ->
            exists w g, Nasdaq100_Weight r = Fin w
                        /\ new_diff (Fin 0) (Fin P) r = Fin g
                        /\ g == 100 - w).
  { intros r Hr. destruct (Hrow r Hr) as (Hv & w & Hw & Hle).
    exists w. unfold new_diff. rewrite Hv, Hw. simpl.
    destruct (Qcompare_spec (0 + P) 0) as [E|E|E]; try lra.
    eexists. split; [reflexivity|]. split; [reflexivity|].
    assert (Hx : inject_Z 100 * (0 + P) / (0 + P) + - w == 100 - w)
      by (change (inject_Z 100) with 100; field; lra).
    rewrite Hx. apply Qabs_pos. lra. }
  assert (Htop : forall r, In r (r0 :: rest) ->
            fle (Nasdaq100_Weight r) (Nasdaq100_Weight r0) = true).
  { intros r [<-|Hr].
    - destruct (Hrow r0 (or_introl eq_refl)) as (_ & w & -> & _).
      apply fle_Fin. lra.
    - destruct Hout as [_ Hs]. inversion Hs as [|? ? _ Hall]; subst.
      rewrite Forall_forall in Hall. now apply Hall. }
  split.
  - apply select_best_head.
    + intros r Hr. destruct (Hgap r Hr) as (w & g & _ & -> & _). reflexivity.
    + intros r Hr.
      destruct (Hgap r0 (or_introl eq_refl)) as (w0 & g0 & Hw0 & -> & Hg0).
      destruct (Hgap r (or_intror Hr)) as (w & g & Hw & -> & Hg).
      pose proof (Htop r (or_intror Hr)) as Hle. rewrite Hw, Hw0 in Hle.
      apply fle_Fin in Hle. apply fle_Fin. lra.
  - intros r Hr. destruct (Hrow r Hr) as (Hv & _).
    split; [exact Hv|]. split; [|now apply Htop].
    unfold new_weight. rewrite Hv. simpl.
    destruct (Qcompare_spec (0 + P) 0) as [E|E|E]; try lra; simpl;
      change (inject_Z 100) with 100; field; lra.
Qed.

Lemma X13_nothing_held_suggests_top_row_witness :
  select_best (total_usd [] []) (Fin 1250)
    (computeComparison ex_targets [] [])
  = Returns ("MSFT", Fin (Qabs (100 * (0 + 1250) / (0 + 1250) + - 60)), Fin 60).
Proof.
  assert (E : computeComparison ex_targets [] []
              = [joined_row "MSFT" None (of_int 60);
                 joined_row "AAPL" None (of_int 40)])
    by (vm_compute; reflexivity).
  rewrite E.
  refine (proj1 (X13_nothing_held_suggests_top_row ex_targets []
                   (joined_row "MSFT" None (of_int 60))
                   [joined_row "AAPL" None (of_int 40)] 1250 _ _ _)).
  - intros n [<-|[<-|[]]]; eexists; (split; [reflexivity|]);
      vm_compute; discriminate.
  - reflexivity.
  - rewrite <- E.
    split; [apply sort_values_Permutation | vm_compute; repeat constructor].
Defined.

(** ** The purchase never lowers a weight *)

(** X14. In exact arithmetic, for a ticker whose value is a part of a
    positive total, a positive purchase moves its weight from
    100 * value / total up to the projected weight
    100 * (value + amount) / (total + amount), which stays at most 100;
    the move is strict unless the ticker is the whole portfolio.  (In
    doubles the bound 100 can be passed by a rounding error, see
    [rounding_can_exceed_100].) *)
Theorem X14_purchase_raises_weight (row : Row) (T P v : Q) :
  Value row = Fin v -> 0 <= v -> v <= T -> 0 < T -> 0 < P ->
  exists w',
    new_weight (Fin T) (Fin P) row = Fin w'
    /\ 100 * v / T <= w' /\ w' <= 100
    /\ (v < T -> 100 * v / T < w').
Proof.
  intros Hv Hv0 HvT HT HP.
  unfold new_weight. rewrite Hv. simpl.
  destruct (Qcompare_spec (T + P) 0) as [E|E|E]; try lra.
  eexists. split; [reflexivity|]. change (inject_Z 100) with 100.
  assert (HTP : 0 < T + P) by lra.
  assert (E1 : 100 * v / T == 100 * v * (T + P) / T / (T + P))
    by (field; lra).
  split; [|split].
  - rewrite E1. apply Qle_shift_div_l; [exact HTP|].
    assert (E2 : 100 * v * (T + P) / T / (T + P) * (T + P)
                 == 100 * v * (T + P) / T) by (field; lra).
    rewrite E2. apply Qle_shift_div_r; [exact HT|]. nra.
  - apply Qle_shift_div_r; [exact HTP|]. nra.
  - intros Hlt. rewrite E1. apply Qlt_shift_div_l; [exact HTP|].
    assert (E2 : 100 * v * (T + P) / T / (T + P) * (T + P)
                 == 100 * v * (T + P) / T) by (field; lra).
    rewrite E2. apply Qlt_shift_div_r; [exact HT|]. nra.
Qed.

Lemma X14_purchase_raises_weight_witness :
  exists w',
    new_weight (Fin 2000) (Fin 1250) ex_row_MSFT = Fin w'
    /\ 100 * 1000 / 2000 <= w' /\ w' <= 100.
Proof.
  destruct (X14_purchase_raises_weight ex_row_MSFT 2000 1250 1000)
    as (w' & Hw & H1 & H2 & _);
    try reflexivity; try (vm_compute; discriminate).
  exists w'. auto.
Defined.

(** ** The exchange rate *)

(** X15. The exchange rate used is the first close that is not NaN: it is
    never NaN, every close before it is NaN; the one failure is
    [IndexError], exactly when there is no close other than NaN. *)
Theorem X15_fx_rate_first_valid_close (closes : list float) :
  (fx_rate closes = Raises IndexError
   <-> forall x, In x closes -> isnan x = true)
  /\ (forall e, fx_rate closes = Raises e -> e = IndexError)
  /\ (forall x, fx_rate closes = Returns x ->
        isnan x = false
        /\ exists before after,
             closes = (before ++ x :: after)%list
             /\ forall y, In y before -> isnan y = true).
Proof.
  unfold fx_rate, dropna. induction closes as [|c closes IH]; simpl.
  - split; [split; [intros _ x [] | reflexivity]|].
    split; [now intros e [= <-] | discriminate].
  - destruct IH as (IH1 & IH2 & IH3).
    replace (notnan c) with (negb (isnan c)) by reflexivity.
    destruct (isnan c) eqn:E; simpl.
    + split; [|split].
      * rewrite IH1. split.
        -- intros H x [<-|Hx]; [exact E | now apply H].
        -- intros H x Hx. apply H. now right.
      * exact IH2.
      * intros x Hx. destruct (IH3 x Hx) as (Hnan & before & after & -> & Hb).
        split; [exact Hnan|]. exists (c :: before), after.
        split; [reflexivity|]. intros y [<-|Hy]; [exact E | now apply Hb].
    + split; [|split].
      * split; [discriminate|]. intros H.
        rewrite (H c (or_introl eq_refl)) in E. discriminate.
      * discriminate.
      * intros x [= <-]. split; [exact E|]. exists [], closes.
        split; [reflexivity | intros y []].
Qed.

Lemma X15_fx_rate_first_valid_close_witness :
  fx_rate [NaN; NaN] = Raises IndexError
  /\ fx_rate [NaN; Fin (69 # 10); Fin 7] = Returns (Fin (69 # 10)).
Proof.
  split; [|reflexivity].
  apply (proj1 (X15_fx_rate_first_valid_close [NaN; NaN])).
  intros x [<-|[<-|[]]]; reflexivity.
Defined.

(** ** The text of the index weights *)

Lemma str_remove_filter (c : ascii) (s : string) :
  list_ascii_of_string (str_remove c s)
  = filter (fun a => negb (Ascii.eqb a c)) (list_ascii_of_string s).
Proof.
  induction s as [|a s IH]; simpl; [reflexivity|].
  destruct (Ascii.eqb a c); simpl; [exact IH | now rewrite IH].
Qed.

Lemma str_remove_absent (c : ascii) (s : string) :
  ~ In c (list_ascii_of_string s) -> str_remove c s = s.
Proof.
  induction s as [|a s IH]; simpl; intros Hnin; [reflexivity|].
  destruct (Ascii.eqb_spec a c) as [->|Hne]; [tauto|].
  rewrite IH by tauto. reflexivity.
Qed.

(** X16. Cleaning the text of a weight keeps, in their order, exactly the
    characters other than the percent sign and the comma; a text without
    them is left as it is, and cleaning twice changes nothing more. *)
Theorem X16_clean_weight_keeps_other_characters (s : string) :
  list_ascii_of_string (clean_weight s)
  = filter (fun a => negb (Ascii.eqb a "%") && negb (Ascii.eqb a ","))
           (list_ascii_of_string s)
  /\ ~ In "%"%char (list_ascii_of_string (clean_weight s))
  /\ ~ In ","%char (list_ascii_of_string (clean_weight s))
  /\ (~ In "%"%char (list_ascii_of_string s) ->
      ~ In ","%char (list_ascii_of_string s) -> clean_weight s = s)
  /\ clean_weight (clean_weight s) = clean_weight s.
Proof.
  assert (Hf : list_ascii_of_string (clean_weight s)
               = filter (fun a => negb (Ascii.eqb a "%")
                                  && negb (Ascii.eqb a ","))
                        (list_ascii_of_string s)).
  { unfold clean_weight. rewrite !str_remove_filter.
    induction (list_ascii_of_string s) as [|a l IH]; simpl; [reflexivity|].
    destruct (Ascii.eqb a "%"); simpl; [exact IH|].
    destruct (Ascii.eqb a ","); simpl; [exact IH | now rewrite IH]. }
  assert (Hp : ~ In "%"%char (list_ascii_of_string (clean_weight s))).
  { rewrite Hf, filter_In. intros [_ H]. discriminate. }
  assert (Hc : ~ In ","%char (list_ascii_of_string (clean_weight s))).
  { rewrite Hf, filter_In. intros [_ H]. discriminate. }
  split; [exact Hf|]. split; [exact Hp|]. split; [exact Hc|]. split.
  - intros H1 H2. unfold clean_weight.
    rewrite (str_remove_absent "%" s H1). now apply str_remove_absent.
  - unfold clean_weight at 1.
    rewrite (str_remove_absent "%" _ Hp). now apply str_remove_absent.
Qed.

Lemma X16_clean_weight_keeps_other_characters_witness :
  clean_weight "1,234.56%" = "1234.56"
  /\ clean_weight (clean_weight "1,234.56%") = clean_weight "1,234.56%".
Proof.
  split; [reflexivity|].
  exact (proj2 (proj2 (proj2 (proj2
           (X16_clean_weight_keeps_other_characters "1,234.56%"))))).
Defined.
